(** * Unicorn ETL: the load / reconciliation core of [unicorn_extractor.py]

    A shallow embedding of the field normaliser [clean_currency_value], of
    the batch shaping of the text columns, and of the three storage steps
    of one load cycle (date dimension, company dimension, fact upsert),
    followed by the properties proved about them.

    Modelling conventions.
    - Python values that reach [clean_currency_value] are the type [pyval];
      exceptions are explicit ([res]), and [try ... except ValueError] is
      [catch_ValueError], which lets every other exception through.
    - A Python [float] is kept as an exact decimal [FNum m e] (the number
      [m * 10^e]) or one of the IEEE specials; binary64 rounding is not
      modelled.
    - Strings are [string] over [ascii]; the characters above 127 are
      ordinary (neither blank nor digit).
    - The input has all thirteen columns. A cell of the data frame holds
      what the source assigns to it: the two key columns hold an integer
      or [None], and [is None] tests for the latter.
    - The storage refuses a write by a test of its own (the schema is not
      in the repository); a refused write raises. Reads, [commit] and
      [rollback] go through. *)

From Stdlib Require Import ZArith String Ascii List Bool Lia QArith.
From stdpp Require Import base tactics option list gmap strings.

Local Open Scope Z_scope.

(** ** Exceptions *)

Inductive exn := ValueError | StorageError.

Inductive res (A : Type) :=
| Ret (a : A)
| Raise (e : exn).
Arguments Ret {A} a.
Arguments Raise {A} e.

Definition bind {A B} (r : res A) (k : A -> res B) : res B :=
  match r with
  | Ret a => k a
  | Raise e => Raise e
  end.

Notation "x <-- r ;; k" := (bind r (fun x => k))
  (at level 100, r at next level, right associativity).

(** [try: r except ValueError: h] *)
Definition catch_ValueError {A} (r : res A) (h : res A) : res A :=
  match r with
  | Raise ValueError => h
  | _ => r
  end.

(** ** Python strings *)

Definition ascii_in (lo hi : N) (c : ascii) : bool :=
  (N.leb lo (N_of_ascii c) && N.leb (N_of_ascii c) hi)%N.

(** [str.isspace] on the ASCII range: TAB..CR, FS..US and the space. *)
Definition is_space (c : ascii) : bool :=
  ascii_in 9 13 c || ascii_in 28 32 c.

Definition is_digit (c : ascii) : bool := ascii_in 48 57 c.

Definition digit_val (c : ascii) : Z := Z.of_N (N_of_ascii c) - 48.

Definition lower_ascii (c : ascii) : ascii :=
  if ascii_in 65 90 c then ascii_of_N (N_of_ascii c + 32) else c.

(** [s.lower()] *)
Fixpoint lower (s : string) : string :=
  match s with
  | EmptyString => EmptyString
  | String c s' => String (lower_ascii c) (lower s')
  end.

(** [s.replace(c, '')] for a one-character [c] *)
Fixpoint remove_char (c : ascii) (s : string) : string :=
  match s with
  | EmptyString => EmptyString
  | String d s' =>
      if Ascii.eqb d c then remove_char c s' else String d (remove_char c s')
  end.

(** [c in s] for a one-character [c] *)
Fixpoint contains_char (c : ascii) (s : string) : bool :=
  match s with
  | EmptyString => false
  | String d s' => Ascii.eqb d c || contains_char c s'
  end.

Fixpoint lstrip (s : string) : string :=
  match s with
  | EmptyString => EmptyString
  | String c s' => if is_space c then lstrip s' else s
  end.

Fixpoint rstrip (s : string) : string :=
  match s with
  | EmptyString => EmptyString
  | String c s' =>
      match rstrip s' with
      | EmptyString => if is_space c then EmptyString else String c EmptyString
      | r => String c r
      end
  end.

(** [s.strip()] *)
Definition strip (s : string) : string := rstrip (lstrip s).

(** ** Python floats and [float(str)] *)

Inductive pyfloat :=
| FNum (m e : Z)          (* the decimal m * 10^e *)
| FInf (negative : bool)
| FNan.

(** The rational a finite float stands for. *)
Definition decimal_value (m e : Z) : Q := (inject_Z m * Qpower 10 e)%Q.

(** [f * k] for a positive integer [k] *)
Definition fmul_int (f : pyfloat) (k : Z) : pyfloat :=
  match f with
  | FNum m e => FNum (m * k) e
  | _ => f
  end.

Definition fneg (f : pyfloat) : pyfloat :=
  match f with
  | FNum m e => FNum (- m) e
  | FInf b => FInf (negb b)
  | FNan => FNan
  end.

(** The rest of a [digitpart] after its first digit: [(["_"] digit)*].
    [acc] is the number read so far, [n] the count of digits read. *)
Fixpoint digits_tail (s : string) (acc : Z) (n : Z) : Z * Z * string :=
  match s with
  | String c s' =>
      if is_digit c then digits_tail s' (acc * 10 + digit_val c) (n + 1)
      else if Ascii.eqb c "_" then
        match s' with
        | String c2 s'' =>
            if is_digit c2
            then digits_tail s'' (acc * 10 + digit_val c2) (n + 1)
            else (acc, n, s)
        | EmptyString => (acc, n, s)
        end
      else (acc, n, s)
  | EmptyString => (acc, n, s)
  end.

(** An optional [digitpart] continuing the number [acc]; the count is 0
    when no digit was there. *)
Definition digitpart (s : string) (acc : Z) : Z * Z * string :=
  match s with
  | String c s' =>
      if is_digit c then digits_tail s' (acc * 10 + digit_val c) 1
      else (acc, 0, s)
  | EmptyString => (acc, 0, s)
  end.

(** An optional sign: [true] for "-". *)
Definition sign (s : string) : bool * string :=
  match s with
  | String "-" s' => (true, s')
  | String "+" s' => (false, s')
  | _ => (false, s)
  end.

(** [exponent ::= ("e" | "E") [sign] digitpart], then the end of the text *)
Definition exponent (s : string) : option Z :=
  match s with
  | EmptyString => Some 0
  | String c s' =>
      if Ascii.eqb c "e" || Ascii.eqb c "E" then
        let '(neg, s1) := sign s' in
        match digitpart s1 0 with
        | (x, n, EmptyString) =>
            if 0 <? n then Some (if neg then - x else x) else None
        | _ => None
        end
      else None
  end.

(** [floatnumber ::= ([digitpart] "." digitpart | digitpart ["."]) [exponent]] *)
Definition floatnumber (s : string) : option pyfloat :=
  let '(i, ni, s1) := digitpart s 0 in
  let '(m, nf, s2) :=
    match s1 with
    | String "." s1' => digitpart s1' i
    | _ => (i, 0, s1)
    end in
  if 0 <? ni + nf then
    match exponent s2 with
    | Some x => Some (FNum m (x - nf))
    | None => None
    end
  else None.

Definition absfloatvalue (s : string) : option pyfloat :=
  let l := lower s in
  if String.eqb l "inf" || String.eqb l "infinity" then Some (FInf false)
  else if String.eqb l "nan" then Some FNan
  else floatnumber s.

(** [float(s)]: blanks around the text are dropped, then
    [floatvalue ::= [sign] absfloatvalue]; anything else is a ValueError. *)
Definition float_of_string (s : string) : res pyfloat :=
  let '(neg, s1) := sign (strip s) in
  match absfloatvalue s1 with
  | Some f => Ret (if neg then fneg f else f)
  | None => Raise ValueError
  end.

(** ** The values a cell can hold *)

Inductive pyval :=
| PyNone
| PyBool (b : bool)
| PyInt (z : Z)
| PyFloat (f : pyfloat)
| PyStr (s : string).

(** ** [clean_currency_value] *)

Definition clean_currency_value (val_str : pyval) : res pyval :=
  match val_str with
  | PyStr s =>
      let s := strip (remove_char "," (remove_char "$" s)) in
      if String.eqb (lower s) "none" || String.eqb s "" then Ret PyNone
      else if contains_char "B" s then
        let s := remove_char "B" s in
        catch_ValueError
          (f <-- float_of_string s ;; Ret (PyFloat (fmul_int f 1000)))
          (Ret PyNone)
      else if contains_char "M" s then
        let s := remove_char "M" s in
        catch_ValueError
          (f <-- float_of_string s ;; Ret (PyFloat f))
          (Ret PyNone)
      else
        catch_ValueError
          (f <-- float_of_string s ;; Ret (PyFloat f))
          (Ret PyNone)
  | _ => Ret val_str
  end.

(** ** Batch shaping (source lines 93-121)

    [pd.read_csv] hands a text column over as [str] cells, with the float
    NaN in the place of an empty field. *)

Inductive raw_text :=
| RawText (s : string)
| RawNaN.

(** [.astype(str)] on one cell: [str(x)]; [str(float('nan'))] is ['nan']. *)
Definition astype_str (c : raw_text) : string :=
  match c with
  | RawText s => s
  | RawNaN => "nan"
  end.

(** One cell of [df.replace({np.nan: None, pd.NA: None, pd.NaT: None, '': None})]:
    the float NaN and the empty string become [None], every other value
    stays. *)
Definition replace_missing (v : pyval) : pyval :=
  match v with
  | PyFloat FNan => PyNone
  | PyStr EmptyString => PyNone
  | _ => v
  end.

(** A text cell after the universal replacement, with [None] as Rocq's. *)
Definition text_of_pyval (v : pyval) : option string :=
  match v with
  | PyStr s => Some s
  | _ => None
  end.

(** The string-column loop followed by the universal replacement. *)
Definition shape_text (c : raw_text) : option string :=
  text_of_pyval (replace_missing (PyStr (astype_str c))).

(** The numeric-column loop followed by the universal replacement. *)
Definition shape_currency (v : pyval) : res pyval :=
  x <-- clean_currency_value v ;; Ret (replace_missing x).

(** *** Calendar dates ([datetime.date]) *)

Record date := Date { year : Z; month : Z; day : Z }.

#[global] Instance date_eq_dec : EqDecision date.
Proof. solve_decision. Defined.

#[global] Instance date_countable : Countable date.
Proof.
  refine (inj_countable' (fun d => (year d, month d, day d))
                         (fun t => Date t.1.1 t.1.2 t.2) _).
  intros []; reflexivity.
Defined.

Definition is_leap (y : Z) : bool :=
  (y mod 4 =? 0) && (negb (y mod 100 =? 0) || (y mod 400 =? 0)).

(** [_days_before_year]: days before January 1st of year [y]. *)
Definition days_before_year (y : Z) : Z :=
  let y := y - 1 in y * 365 + y / 4 - y / 100 + y / 400.

(** [_DAYS_BEFORE_MONTH], indexed from month 1. *)
Definition DAYS_BEFORE_MONTH : list Z :=
  [0; 31; 59; 90; 120; 151; 181; 212; 243; 273; 304; 334].

(** [_days_before_month] *)
Definition days_before_month (y m : Z) : Z :=
  nth (Z.to_nat (m - 1)) DAYS_BEFORE_MONTH 0
  + (if (2 <? m) && is_leap y then 1 else 0).

(** [date.toordinal()]: day 1 is 0001-01-01. *)
Definition toordinal (d : date) : Z :=
  days_before_year (year d) + days_before_month (year d) (month d) + day d.

(** [date.weekday()]: Monday is 0 and Sunday is 6. *)
Definition weekday (d : date) : Z := (toordinal d + 6) mod 7.

Inductive day_name :=
| Monday | Tuesday | Wednesday | Thursday | Friday | Saturday | Sunday.

Definition day_of_index (i : Z) : option day_name :=
  nth_error [Monday; Tuesday; Wednesday; Thursday; Friday; Saturday; Sunday]
            (Z.to_nat i).

Definition is_working_day (n : day_name) : bool :=
  match n with
  | Saturday | Sunday => false
  | _ => true
  end.

(** *** Records *)

Record RawRecord := {
  r_Company : raw_text;
  r_Valuation : pyval;
  r_Date_Joined : pyval;
  r_Country : raw_text;
  r_City : raw_text;
  r_Industry : raw_text;
  r_Select_Inverstors : raw_text;
  r_Founded_Year : pyval;
  r_Total_Raised : pyval;
  r_Financial_Stage : raw_text;
  r_Investors_Count : pyval;
  r_Deal_Terms : raw_text;
  r_Portfolio_Exits : raw_text
}.

Record NormalizedRecord := {
  company_name : option string;
  valuation_billion : pyval;
  date_joined_unicorn_club : option date;
  country : option string;
  city : option string;
  industry : option string;
  select_investors : option string;
  founded_year : option Z;
  total_raised_million : pyval;
  financial_stage : option string;
  investors_count : option Z;
  deal_terms : option string;
  portfolio_exits : option string;
  load_date : date
}.

(** The two pandas column parsers the shaping uses; their code is not part
    of the repository, and nothing proved below depends on what they
    return. *)
Class PandasParsers := {
  (** [pd.to_datetime(col, errors='coerce').dt.date], then NaT to None *)
  to_datetime : pyval -> option date;
  (** [pd.to_numeric(col, errors='coerce').astype('Int64')], then NA to None *)
  to_numeric : pyval -> option Z
}.

Section Shaping.
Context `{PandasParsers}.

(** One row of [df_transformed] before the load (source lines 90-121). *)
Definition shape_record (today : date) (r : RawRecord) : res NormalizedRecord :=
  v <-- shape_currency (r_Valuation r) ;;
  t <-- shape_currency (r_Total_Raised r) ;;
  Ret {| company_name := shape_text (r_Company r);
         valuation_billion := v;
         date_joined_unicorn_club := to_datetime (r_Date_Joined r);
         country := shape_text (r_Country r);
         city := shape_text (r_City r);
         industry := shape_text (r_Industry r);
         select_investors := shape_text (r_Select_Inverstors r);
         founded_year := to_numeric (r_Founded_Year r);
         total_raised_million := t;
         financial_stage := shape_text (r_Financial_Stage r);
         investors_count := to_numeric (r_Investors_Count r);
         deal_terms := shape_text (r_Deal_Terms r);
         portfolio_exits := shape_text (r_Portfolio_Exits r);
         load_date := today |}.

Fixpoint shape (today : date) (raw : list RawRecord) : res (list NormalizedRecord) :=
  match raw with
  | [] => Ret []
  | r :: raw' =>
      x <-- shape_record today r ;;
      xs <-- shape today raw' ;;
      Ret (x :: xs)
  end.

End Shaping.

(** ** The columns (source lines 74-91) *)

Definition column_mapping : list (string * string) :=
  [ ("Company", "company_name");
    ("Valuation ($B)", "valuation_billion");
    ("Date Joined", "date_joined_unicorn_club");
    ("Country", "country");
    ("City", "city");
    ("Industry", "industry");
    ("Select Inverstors", "select_investors");
    ("Founded Year", "founded_year");
    ("Total Raised", "total_raised_million");
    ("Financial Stage", "financial_stage");
    ("Investors Count", "investors_count");
    ("Deal Terms", "deal_terms");
    ("Portfolio Exits", "portfolio_exits") ]%string.

(** [column_mapping] as the dict it is. *)
Definition column_dict : gmap string string := list_to_map column_mapping.

(** The column names of [df_raw.rename(columns=column_mapping)]: a name
    that is a key of the dict is replaced, any other stays. *)
Definition rename (columns : list string) : list string :=
  map (fun c => default c (column_dict !! c)) columns.

(** [[col for col in column_mapping.values() if col in df_transformed.columns]] *)
Definition selected_columns (columns : list string) : list string :=
  filter (fun col => col ∈ rename columns) (map snd column_mapping).

(** ** The warehouse tables *)

Record date_attrs := {
  full_date : date;
  dd_year : Z;
  dd_month : Z;
  dd_day : Z;
  day_of_week : Z;
  is_weekday : bool
}.

Record dim_date_row := { date_key : Z; date_cols : date_attrs }.

Record company_attrs := {
  ca_company_name : option string;
  ca_industry : option string;
  ca_country : option string;
  ca_city : option string;
  ca_founded_year : option Z;
  ca_date_joined_unicorn_club : option date;
  ca_select_investors : option string
}.

Record dim_company_row := { company_key : Z; company_cols : company_attrs }.

Record fact_values := {
  fv_load_date_key : Z;
  fv_company_key : Z;
  fv_valuation_billion : pyval;
  fv_total_raised_million : pyval;
  fv_financial_stage : option string;
  fv_investors_count : option Z;
  fv_deal_terms : option string;
  fv_portfolio_exits : option string
}.

Record tables := {
  dim_date : list dim_date_row;
  dim_company : list dim_company_row;
  fact_unicorn_snapshot : list fact_values
}.

(** What the connection was asked to do, in order. *)
Inductive statement :=
| SelectDimDate
| InsertDimDate (rows : list date_attrs)
| SelectDimDateIn (dates : list date)
| Savepoint
| SelectCompany (name : option string)
| UpdateCompany (a : company_attrs)
| InsertCompany (a : company_attrs)
| UpsertFact (v : fact_values)
| Commit
| Rollback.

(** One connection: the committed tables, the tables as the open
    transaction sees them, the two key sequences and the statements run. *)
Record connection := {
  committed : tables;
  current : tables;
  date_seq : Z;
  company_seq : Z;
  statements : list statement
}.

(** The checks of the storage side (NOT NULL, lengths, types, uniqueness,
    ...): the schema is not part of the repository, so a write is refused
    by an arbitrary test of the tables and the row. A refused write raises. *)
Class StorageConstraints := {
  dim_date_rejects : tables -> date_attrs -> bool;
  dim_company_rejects : tables -> company_attrs -> bool;
  fact_rejects : tables -> fact_values -> bool
}.

(** *** Stateful, fallible computations on the connection *)

Definition M (A : Type) : Type := connection -> res A * connection.

Definition mret {A} (a : A) : M A := fun c => (Ret a, c).

Definition mbind {A B} (m : M A) (k : A -> M B) : M B :=
  fun c =>
    match m c with
    | (Ret a, c') => k a c'
    | (Raise e, c') => (Raise e, c')
    end.

Notation "x <- m ;; k" := (mbind m (fun x => k))
  (at level 100, m at next level, right associativity).
Notation "m ;;; k" := (mbind m (fun _ => k))
  (at level 100, right associativity).

(** [try: m except Exception: h] *)
Definition try_except {A} (m : M A) (h : exn -> M A) : M A :=
  fun c =>
    match m c with
    | (Raise e, c') => h e c'
    | r => r
    end.

Definition with_current (t : tables) (c : connection) : connection :=
  {| committed := committed c; current := t; date_seq := date_seq c;
     company_seq := company_seq c; statements := statements c |}.

Definition log (s : statement) (c : connection) : connection :=
  {| committed := committed c; current := current c; date_seq := date_seq c;
     company_seq := company_seq c; statements := statements c ++ [s] |}.

Definition with_dim_date (l : list dim_date_row) (t : tables) : tables :=
  {| dim_date := l; dim_company := dim_company t;
     fact_unicorn_snapshot := fact_unicorn_snapshot t |}.

Definition with_dim_company (l : list dim_company_row) (t : tables) : tables :=
  {| dim_date := dim_date t; dim_company := l;
     fact_unicorn_snapshot := fact_unicorn_snapshot t |}.

Definition with_fact (l : list fact_values) (t : tables) : tables :=
  {| dim_date := dim_date t; dim_company := dim_company t;
     fact_unicorn_snapshot := l |}.

(** [connection.commit()] *)
Definition commit : M unit :=
  fun c =>
    (Ret tt,
     log Commit
       {| committed := current c; current := current c; date_seq := date_seq c;
          company_seq := company_seq c; statements := statements c |}).

(** [connection.rollback()] *)
Definition rollback : M unit :=
  fun c => (Ret tt, log Rollback (with_current (committed c) c)).

(** [connection.begin_nested()] *)
Definition begin_nested : M unit := fun c => (Ret tt, log Savepoint c).

(** Leaving [with db_engine.connect() as connection]: what was not
    committed is gone. *)
Definition close (c : connection) : connection := with_current (committed c) c.

(** SQL [=] on a nullable text: NULL equals nothing. The pandas mask
    [df['company_name'] == name] agrees with it on [None]. *)
Definition sql_eq (a b : option string) : bool :=
  match a, b with
  | Some x, Some y => String.eqb x y
  | _, _ => false
  end.

(** The columns [full_date, date_key] of some rows of dim_date. *)
Definition date_pairs (rows : list dim_date_row) : list (date * Z) :=
  map (fun r => (full_date (date_cols r), date_key r)) rows.

Section Storage.
Context `{StorageConstraints}.

(** [SELECT full_date, date_key FROM dim_date] *)
Definition select_dim_date : M (list (date * Z)) :=
  fun c => (Ret (date_pairs (dim_date (current c))), log SelectDimDate c).

(** Rows numbered from the sequence, in order. *)
Fixpoint number_dates (k : Z) (rows : list date_attrs) : list dim_date_row :=
  match rows with
  | [] => []
  | a :: rows' => {| date_key := k; date_cols := a |} :: number_dates (k + 1) rows'
  end.

(** [new_dates_to_insert.to_sql('dim_date', connection, if_exists='append')]:
    one bulk insert, refused as a whole when one row is. *)
Definition to_sql_dim_date (rows : list date_attrs) : M unit :=
  fun c =>
    let c := log (InsertDimDate rows) c in
    if existsb (dim_date_rejects (current c)) rows then (Raise StorageError, c)
    else
      (Ret tt,
       {| committed := committed c;
          current := with_dim_date
                       (dim_date (current c) ++ number_dates (date_seq c) rows)
                       (current c);
          date_seq := date_seq c + Z.of_nat (length rows);
          company_seq := company_seq c;
          statements := statements c |}).

(** [SELECT full_date, date_key FROM dim_date WHERE full_date IN :dates] *)
Definition select_dim_date_in (dates : list date) : M (list (date * Z)) :=
  fun c =>
    (Ret (date_pairs (filter (fun r => full_date (date_cols r) ∈ dates)
                             (dim_date (current c)))),
     log (SelectDimDateIn dates) c).

(** [SELECT company_key FROM dim_company WHERE company_name = :company_name],
    [.fetchone()] *)
Definition select_company_key (name : option string) : M (option Z) :=
  fun c =>
    (Ret (company_key <$>
            head (filter (fun r => sql_eq (ca_company_name (company_cols r)) name = true)
                         (dim_company (current c)))),
     log (SelectCompany name) c).

(** The [SET] list of the UPDATE: every column but the name. *)
Definition set_attrs (a old : company_attrs) : company_attrs :=
  {| ca_company_name := ca_company_name old;
     ca_industry := ca_industry a;
     ca_country := ca_country a;
     ca_city := ca_city a;
     ca_founded_year := ca_founded_year a;
     ca_date_joined_unicorn_club := ca_date_joined_unicorn_club a;
     ca_select_investors := ca_select_investors a |}.

(** [UPDATE dim_company SET ... WHERE company_name = :company_name] *)
Definition update_company (a : company_attrs) : M unit :=
  fun c =>
    let c := log (UpdateCompany a) c in
    if dim_company_rejects (current c) a then (Raise StorageError, c)
    else
      (Ret tt,
       with_current
         (with_dim_company
            (map (fun r =>
                    if sql_eq (ca_company_name (company_cols r)) (ca_company_name a)
                    then {| company_key := company_key r;
                            company_cols := set_attrs a (company_cols r) |}
                    else r)
                 (dim_company (current c)))
            (current c))
         c).

(** [INSERT INTO dim_company (...) VALUES (...) RETURNING company_key],
    [.scalar_one()] *)
Definition insert_company (a : company_attrs) : M Z :=
  fun c =>
    let c := log (InsertCompany a) c in
    if dim_company_rejects (current c) a then (Raise StorageError, c)
    else
      (Ret (company_seq c),
       {| committed := committed c;
          current := with_dim_company
                       (dim_company (current c)
                          ++ [{| company_key := company_seq c; company_cols := a |}])
                       (current c);
          date_seq := date_seq c;
          company_seq := company_seq c + 1;
          statements := statements c |}).

Definition same_fact_key (v w : fact_values) : bool :=
  (fv_load_date_key v =? fv_load_date_key w)
  && (fv_company_key v =? fv_company_key w).

(** [INSERT INTO fact_unicorn_snapshot ... ON CONFLICT (load_date_key,
    company_key) DO UPDATE SET ...]; the result is [rowcount]. *)
Definition upsert_fact (v : fact_values) : M Z :=
  fun c =>
    let c := log (UpsertFact v) c in
    if fact_rejects (current c) v then (Raise StorageError, c)
    else
      let rows := fact_unicorn_snapshot (current c) in
      (Ret 1,
       with_current
         (with_fact
            (if existsb (same_fact_key v) rows
             then map (fun w => if same_fact_key v w then v else w) rows
             else rows ++ [v])
            (current c))
         c).

End Storage.

(** ** The load (source lines 130-253) *)

(** One row of [df_transformed] during the load: the shaped record and
    the two key columns added on the way. A cell never assigned is absent,
    like one assigned [None]. *)
Record df_row := {
  rec : NormalizedRecord;
  load_date_key : option Z;
  company_key_cell : option Z
}.

(** Rows in order of first appearance of their key, later ones dropped:
    [Series.unique()] and [DataFrame.drop_duplicates(subset=...)]. *)
Fixpoint drop_duplicates_from {A K} `{EqDecision K}
    (key : A -> K) (seen : list K) (l : list A) : list A :=
  match l with
  | [] => []
  | x :: l' =>
      if decide (key x ∈ seen) then drop_duplicates_from key seen l'
      else x :: drop_duplicates_from key (key x :: seen) l'
  end.

Definition drop_duplicates {A K} `{EqDecision K} (key : A -> K) (l : list A) : list A :=
  drop_duplicates_from key [] l.

Definition unique {A} `{EqDecision A} (l : list A) : list A :=
  drop_duplicates (fun x => x) l.

(** One row of [dim_date_df] (source lines 135-142). *)
Definition make_date_attrs (d : date) : date_attrs :=
  {| full_date := d;
     dd_year := year d;
     dd_month := month d;
     dd_day := day d;
     day_of_week := weekday d;
     is_weekday := weekday d <? 5 |}.

(** [{row[0]: row[1] for row in rows}] on top of [m]: later rows win. *)
Definition dict_update (m : gmap date Z) (rows : list (date * Z)) : gmap date Z :=
  fold_left (fun m r => <[r.1 := r.2]> m) rows m.

(** [insert_update_data = {k: row_data.get(k) for k in dim_company_cols}] *)
Definition insert_update_data (r : NormalizedRecord) : company_attrs :=
  {| ca_company_name := company_name r;
     ca_industry := industry r;
     ca_country := country r;
     ca_city := city r;
     ca_founded_year := founded_year r;
     ca_date_joined_unicorn_club := date_joined_unicorn_club r;
     ca_select_investors := select_investors r |}.

(** [df_transformed.loc[df_transformed['company_name'] == name, 'company_key'] = v] *)
Definition set_company_key (name : option string) (v : option Z)
    (df : list df_row) : list df_row :=
  map (fun r =>
         if sql_eq (company_name (rec r)) name
         then {| rec := rec r; load_date_key := load_date_key r;
                 company_key_cell := v |}
         else r)
      df.

(** [row_data.to_dict()] of a [df_fact] row whose two keys are there. *)
Definition fact_of_row (dk ck : Z) (r : NormalizedRecord) : fact_values :=
  {| fv_load_date_key := dk;
     fv_company_key := ck;
     fv_valuation_billion := valuation_billion r;
     fv_total_raised_million := total_raised_million r;
     fv_financial_stage := financial_stage r;
     fv_investors_count := investors_count r;
     fv_deal_terms := deal_terms r;
     fv_portfolio_exits := portfolio_exits r |}.

Section Load.
Context `{StorageConstraints}.

(** Step 1, the date dimension (source lines 133-157): the mapping
    [existing_date_map] once the new dates are in. *)
Definition reconcile_dates (unique_dates : list date) : M (gmap date Z) :=
  let dim_date_df := map make_date_attrs unique_dates in
  existing_dates_query <- select_dim_date ;;
  let existing_date_map := dict_update ∅ existing_dates_query in
  let new_dates_to_insert :=
    filter (fun r => existing_date_map !! full_date r = None) dim_date_df in
  match new_dates_to_insert with
  | [] => mret existing_date_map
  | _ :: _ =>
      to_sql_dim_date new_dates_to_insert ;;;
      commit ;;;
      new_inserted_dates_query <-
        select_dim_date_in (map full_date new_dates_to_insert) ;;
      mret (dict_update existing_date_map new_inserted_dates_query)
  end.

(** [df_transformed['load_date_key'] = df_transformed['load_date'].map(existing_date_map)] *)
Definition map_load_date_key (m : gmap date Z) (df : list df_row) : list df_row :=
  map (fun r => {| rec := rec r; load_date_key := m !! load_date (rec r);
                   company_key_cell := company_key_cell r |})
      df.

(** The body of the company loop (source lines 169-207) for one row of
    [dim_company_df]. The counters and the key column are written after
    the last statement that can raise, so the [try] hands them over only
    when it ends normally. *)
Definition reconcile_company (row_data : NormalizedRecord)
    (st : list df_row * Z * Z) : M (list df_row * Z * Z) :=
  let '(df, rows_inserted_company, rows_updated_company) := st in
  try_except
    (begin_nested ;;;
     result <- select_company_key (company_name row_data) ;;
     let data := insert_update_data row_data in
     r <- match result with
          | Some company_key =>
              update_company data ;;;
              mret (company_key, rows_inserted_company, rows_updated_company + 1)
          | None =>
              company_key <- insert_company data ;;
              mret (company_key, rows_inserted_company + 1, rows_updated_company)
          end ;;
     let '(company_key, ins, upd) := r in
     let df := set_company_key (company_name row_data) (Some company_key) df in
     commit ;;;
     mret (df, ins, upd))
    (fun e =>
       rollback ;;;
       mret (set_company_key (company_name row_data) None df,
             rows_inserted_company, rows_updated_company)).

Fixpoint reconcile_companies_loop (rows : list NormalizedRecord)
    (st : list df_row * Z * Z) : M (list df_row * Z * Z) :=
  match rows with
  | [] => mret st
  | row_data :: rows' =>
      st' <- reconcile_company row_data st ;;
      reconcile_companies_loop rows' st'
  end.

(** Step 2, the company dimension (source lines 162-208): the data frame
    with its [company_key] column, and the two counters. *)
Definition reconcile_companies (df : list df_row) : M (list df_row * Z * Z) :=
  let dim_company_df := drop_duplicates company_name (map rec df) in
  st <- reconcile_companies_loop dim_company_df (df, 0, 0) ;;
  commit ;;;
  mret st.

(** The body of the fact loop (source lines 219-251) for one row. *)
Definition upsert_fact_row (row_data : df_row) (st : Z * Z) : M (Z * Z) :=
  let '(rows_inserted_fact, rows_skipped_fact) := st in
  match company_key_cell row_data, load_date_key row_data with
  | Some ck, Some dk =>
      try_except
        (begin_nested ;;;
         rowcount <- upsert_fact (fact_of_row dk ck (rec row_data)) ;;
         let st' := if 0 <? rowcount
                    then (rows_inserted_fact + 1, rows_skipped_fact)
                    else (rows_inserted_fact, rows_skipped_fact + 1) in
         commit ;;;
         mret st')
        (fun e =>
           rollback ;;;
           mret (rows_inserted_fact, rows_skipped_fact + 1))
  | _, _ => mret (rows_inserted_fact, rows_skipped_fact + 1)
  end.

Fixpoint upsert_facts_loop (df_fact : list df_row) (st : Z * Z) : M (Z * Z) :=
  match df_fact with
  | [] => mret st
  | row_data :: rows' =>
      st' <- upsert_fact_row row_data st ;;
      upsert_facts_loop rows' st'
  end.

(** Step 3, the fact table (source lines 212-253):
    [(rows_inserted_fact, rows_skipped_fact)]. *)
Definition upsert_facts (df_fact : list df_row) : M (Z * Z) :=
  upsert_facts_loop df_fact (0, 0).

End Load.

(** ** One cycle of the main loop (source lines 57-264) *)

Inductive step :=
| Shaping | DateReconcile | CompanyReconcile | FactUpsert | Done | CycleAborted.

Record summary := {
  companies_inserted : Z;
  companies_updated : Z;
  facts_written : Z;
  facts_skipped : Z
}.

Inductive status :=
| EmptyBatch
| Completed (s : summary)
| Aborted (e : exn).

Record cycle_result := {
  outcome : status;
  steps : list step;
  conn : connection
}.

Section Cycle.
Context `{PandasParsers} `{StorageConstraints}.

Definition new_row (r : NormalizedRecord) : df_row :=
  {| rec := r; load_date_key := None; company_key_cell := None |}.

(** The steps entered are recorded as the cycle goes; an exception that
    leaves a step is caught by the handlers of lines 255-261, which end
    the cycle. *)
Definition load_cycle (today : date) (df_raw : list RawRecord)
    (c : connection) : cycle_result :=
  match df_raw with
  | [] => {| outcome := EmptyBatch; steps := []; conn := c |}
  | _ :: _ =>
      match shape today df_raw with
      | Raise e =>
          {| outcome := Aborted e; steps := [Shaping; CycleAborted]; conn := c |}
      | Ret batch =>
          let df := map new_row batch in
          match reconcile_dates (unique (map load_date batch)) c with
          | (Raise e, c1) =>
              {| outcome := Aborted e;
                 steps := [Shaping; DateReconcile; CycleAborted];
                 conn := close c1 |}
          | (Ret existing_date_map, c1) =>
              let df := map_load_date_key existing_date_map df in
              match reconcile_companies df c1 with
              | (Raise e, c2) =>
                  {| outcome := Aborted e;
                     steps := [Shaping; DateReconcile; CompanyReconcile;
                               CycleAborted];
                     conn := close c2 |}
              | (Ret (df, ins, upd), c2) =>
                  match upsert_facts df c2 with
                  | (Raise e, c3) =>
                      {| outcome := Aborted e;
                         steps := [Shaping; DateReconcile; CompanyReconcile;
                                   FactUpsert; CycleAborted];
                         conn := close c3 |}
                  | (Ret (written, skipped), c3) =>
                      {| outcome :=
                           Completed {| companies_inserted := ins;
                                        companies_updated := upd;
                                        facts_written := written;
                                        facts_skipped := skipped |};
                         steps := [Shaping; DateReconcile; CompanyReconcile;
                                   FactUpsert; Done];
                         conn := close c3 |}
                  end
              end
          end
      end
  end.

End Cycle.

(** ** Sample data *)

(** A schema for the examples: [company_name] and [industry] are NOT NULL
    in dim_company, [full_date] is unique in dim_date, and a fact needs
    its [financial_stage]. *)
Definition sample_schema : StorageConstraints :=
  {| dim_date_rejects := fun t a =>
       existsb (fun r => bool_decide (full_date (date_cols r) = full_date a))
               (dim_date t);
     dim_company_rejects := fun _ a =>
       match ca_company_name a, ca_industry a with
       | Some _, Some _ => false
       | _, _ => true
       end;
     fact_rejects := fun _ v =>
       match fv_financial_stage v with
       | Some _ => false
       | None => true
       end |}.

(** Parsers for the examples: only what is already a date or an integer
    is kept. *)
Definition sample_parsers : PandasParsers :=
  {| to_datetime := fun _ => None;
     to_numeric := fun v => match v with PyInt z => Some z | _ => None end |}.

Definition empty_tables : tables :=
  {| dim_date := []; dim_company := []; fact_unicorn_snapshot := [] |}.

Definition fresh_connection : connection :=
  {| committed := empty_tables; current := empty_tables;
     date_seq := 1; company_seq := 1; statements := [] |}.

Definition raw_row (name industry stage : raw_text) (valuation : pyval) : RawRecord :=
  {| r_Company := name;
     r_Valuation := valuation;
     r_Date_Joined := PyFloat FNan;
     r_Country := RawText "US";
     r_City := RawNaN;
     r_Industry := industry;
     r_Select_Inverstors := RawNaN;
     r_Founded_Year := PyInt 2015;
     r_Total_Raised := PyStr "$200M";
     r_Financial_Stage := stage;
     r_Investors_Count := PyFloat FNan;
     r_Deal_Terms := RawNaN;
     r_Portfolio_Exits := RawNaN |}.

(** Acme twice (two industries), a company with an empty industry, and
    one more. *)
Definition sample_batch : list RawRecord :=
  [ raw_row (RawText "Acme") (RawText "Fintech") (RawText "IPO") (PyStr "$2B");
    raw_row (RawText "Void") (RawText "") (RawText "IPO") (PyStr "$1B");
    raw_row (RawText "Acme") (RawText "Retail") (RawText "Acquired") (PyStr "$3B");
    raw_row (RawText "Zeta") (RawText "Health") (RawText "") (PyStr "1,500M") ].

Definition sample_day : date := Date 2024 1 1.

(** The sample batch once shaped. *)
Definition sample_records : list NormalizedRecord :=
  match @shape sample_parsers sample_day sample_batch with
  | Ret batch => batch
  | Raise _ => []
  end.

(** The sample data frame as the company step finds it: date key 1 on
    every row. *)
Definition sample_frame : list df_row :=
  map (fun r => {| rec := r; load_date_key := Some 1; company_key_cell := None |})
      sample_records.

(** The row of Void, which the sample schema refuses (no industry), with
    its date key and without a company key. *)
Definition void_row : df_row :=
  {| rec := nth 1 sample_records
              {| company_name := None; valuation_billion := PyNone;
                 date_joined_unicorn_club := None; country := None;
                 city := None; industry := None; select_investors := None;
                 founded_year := None; total_raised_million := PyNone;
                 financial_stage := None; investors_count := None;
                 deal_terms := None; portfolio_exits := None;
                 load_date := sample_day |};
     load_date_key := Some 1;
     company_key_cell := None |}.

(** The sample frame and connection as the company step leaves them. *)
Definition sample_keyed_frame : list df_row :=
  match (@reconcile_companies sample_schema sample_frame fresh_connection).1 with
  | Ret (df, _, _) => df
  | Raise _ => []
  end.

Definition sample_loaded : connection :=
  (@reconcile_companies sample_schema sample_frame fresh_connection).2.

(** ** Vocabulary of the statements *)

Fixpoint all_chars (P : ascii -> bool) (s : string) : bool :=
  match s with
  | EmptyString => true
  | String c s' => P c && all_chars P s'
  end.

(** The characters a text accepted by [float] is made of: blanks, digits,
    sign, point, underscore, exponent mark and the letters of inf,
    infinity and nan in both cases. *)
Definition numeric_char (c : ascii) : bool :=
  is_space c || is_digit c
  || existsb (Ascii.eqb c) (list_ascii_of_string "+-._eEiInNfFtTyYaA").

(** The text left once the currency sign, the separators and the blanks
    around are gone (source line 34). *)
Definition cleaned (s : string) : string :=
  strip (remove_char "," (remove_char "$" s)).

(** The text that [clean_currency_value] hands to [float]. *)
Definition numeric_remainder (s : string) : string :=
  let c := cleaned s in
  if contains_char "B" c then remove_char "B" c
  else if contains_char "M" c then remove_char "M" c
  else c.




(** The business keys held by dim_date. *)
Definition stored_dates (t : tables) : list date :=
  map (fun r => full_date (date_cols r)) (dim_date t).

(** [new_dates_to_insert] (source line 148) for the dates of a cycle. *)
Definition new_dates (t : tables) (unique_dates : list date) : list date_attrs :=
  filter (fun r => dict_update ∅ (date_pairs (dim_date t)) !! full_date r = None)
         (map make_date_attrs unique_dates).

(** The rows that UPDATE or INSERT statements carried to dim_company. *)
Fixpoint company_writes (l : list statement) : list company_attrs :=
  match l with
  | [] => []
  | UpdateCompany a :: l' | InsertCompany a :: l' => a :: company_writes l'
  | _ :: l' => company_writes l'
  end.

(** The names looked up in dim_company. *)
Fixpoint company_selects (l : list statement) : list (option string) :=
  match l with
  | [] => []
  | SelectCompany n :: l' => n :: company_selects l'
  | _ :: l' => company_selects l'
  end.


(** The fact a row of the data frame stands for, when both keys are there. *)
Definition keyed_fact (r : df_row) : option fact_values :=
  match company_key_cell r, load_date_key r with
  | Some ck, Some dk => Some (fact_of_row dk ck (rec r))
  | _, _ => None
  end.


(** No row of the data frame that bears the name has a company key. *)
Definition keyless (name : option string) (df : list df_row) : Prop :=
  forall r, r ∈ df -> sql_eq (company_name (rec r)) name = true ->
            company_key_cell r = None.

(** The derived columns of a date row say what its [full_date] says. *)
Definition date_attrs_agree (a : date_attrs) : Prop :=
  dd_year a = year (full_date a)
  /\ dd_month a = month (full_date a)
  /\ dd_day a = day (full_date a)
  /\ day_of_week a = weekday (full_date a)
  /\ (is_weekday a = true <->
      exists n, day_of_index (day_of_week a) = Some n /\ is_working_day n = true).

Definition decimal_or_absent (v : pyval) : Prop :=
  v = PyNone \/ exists m e, v = PyFloat (FNum m e).

(** ** The loops as steps on the tables

    What one turn of the company loop and of the fact loop does to the
    tables, the data frame and the counters, on a connection with nothing
    pending; the loops are shown below to take exactly these steps. *)

(** The surrogate key and the business key of a company row. *)
Definition key_name (r : dim_company_row) : Z * option string :=
  (company_key r, ca_company_name (company_cols r)).

(** The company names held by dim_company (NULL left out). *)
Definition stored_names (t : tables) : list string :=
  omap (fun r => ca_company_name (company_cols r)) (dim_company t).

(** The rows of dim_company that the lookup by name finds. *)
Definition rows_named (name : option string) (t : tables) : list dim_company_row :=
  filter (fun r => sql_eq (ca_company_name (company_cols r)) name = true)
         (dim_company t).

(** The rows of dim_company after the UPDATE for [a]. *)
Definition updated_rows (a : company_attrs) (rows : list dim_company_row)
    : list dim_company_row :=
  map (fun r =>
         if sql_eq (ca_company_name (company_cols r)) (ca_company_name a)
         then {| company_key := company_key r;
                 company_cols := set_attrs a (company_cols r) |}
         else r)
      rows.

(** The key of a fact row. *)
Definition fact_key (v : fact_values) : Z * Z :=
  (fv_load_date_key v, fv_company_key v).

(** The fact rows after the upsert of [v]. *)
Definition upserted_rows (v : fact_values) (rows : list fact_values)
    : list fact_values :=
  if existsb (same_fact_key v) rows
  then map (fun w => if same_fact_key v w then v else w) rows
  else rows ++ [v].

(** Every key in the data frame, on a row named like one of the rows
    [done], is the key of a dim_company row that carries the attributes of
    that row of [done]. *)
Definition cells_sound (done : list NormalizedRecord) (t : tables)
    (df : list df_row) : Prop :=
  forall r rd k,
    r ∈ df -> rd ∈ done ->
    sql_eq (company_name (rec r)) (company_name rd) = true ->
    company_key_cell r = Some k ->
    exists row, row ∈ dim_company t /\ company_key row = k
                /\ company_cols row = insert_update_data rd.

Section Steps.
Context `{StorageConstraints}.

Inductive company_step (row : NormalizedRecord) :
    tables -> list df_row -> Z -> Z -> tables -> list df_row -> Z -> Z -> Prop :=
| company_refused t df i u :
    dim_company_rejects t (insert_update_data row) = true ->
    company_step row t df i u
      t (set_company_key (company_name row) None df) i u
| company_updated t df i u old :
    dim_company_rejects t (insert_update_data row) = false ->
    head (rows_named (company_name row) t) = Some old ->
    company_step row t df i u
      (with_dim_company (updated_rows (insert_update_data row) (dim_company t)) t)
      (set_company_key (company_name row) (Some (company_key old)) df) i (u + 1)
| company_inserted t df i u k :
    dim_company_rejects t (insert_update_data row) = false ->
    head (rows_named (company_name row) t) = None ->
    company_step row t df i u
      (with_dim_company
         (dim_company t ++ [{| company_key := k;
                               company_cols := insert_update_data row |}]) t)
      (set_company_key (company_name row) (Some k) df) (i + 1) u.

Inductive company_steps :
    list NormalizedRecord ->
    tables -> list df_row -> Z -> Z -> tables -> list df_row -> Z -> Z -> Prop :=
| company_steps_nil t df i u : company_steps [] t df i u t df i u
| company_steps_cons row rows t df i u t1 df1 i1 u1 t2 df2 i2 u2 :
    company_step row t df i u t1 df1 i1 u1 ->
    company_steps rows t1 df1 i1 u1 t2 df2 i2 u2 ->
    company_steps (row :: rows) t df i u t2 df2 i2 u2.



End Steps.

(** * Properties *)

(** ** Characters and strings *)

Ltac each_ascii c := destruct c as [[] [] [] [] [] [] [] []].

#[local] Arguments String.append !_ _ / : simpl nomatch.








Lemma lower_app s t : lower (s ++ t) = (lower s ++ lower t)%string.
Proof. induction s; simpl; congruence. Qed.

Lemma contains_char_app c s t :
  contains_char c (s ++ t) = contains_char c s || contains_char c t.
Proof.
  induction s as [|d s IH]; simpl; [reflexivity|].
  rewrite IH. now rewrite orb_assoc.
Qed.

Lemma remove_char_app c s t :
  remove_char c (s ++ t) = (remove_char c s ++ remove_char c t)%string.
Proof.
  induction s as [|d s IH]; simpl; [reflexivity|].
  rewrite IH. now destruct (Ascii.eqb d c).
Qed.

Lemma remove_char_absent c s : contains_char c s = false -> remove_char c s = s.
Proof.
  induction s as [|d s IH]; simpl; [reflexivity|].
  intros [Hd Hs]%orb_false_iff. rewrite Hd. now rewrite IH.
Qed.


(** *** Blanks *)


Lemma lstrip_app_char s c :
  is_space c = false -> lstrip (s ++ String c "") = (lstrip s ++ String c "")%string.
Proof.
  intros Hc. induction s as [|d s IH]; simpl; [now rewrite Hc|].
  now destruct (is_space d).
Qed.

Lemma rstrip_app_char s c :
  is_space c = false -> rstrip (s ++ String c "") = (s ++ String c "")%string.
Proof.
  intros Hc. induction s as [|d s IH]; simpl; [now rewrite Hc|].
  rewrite IH. destruct s; reflexivity.
Qed.





Lemma strip_app_char s c :
  is_space c = false -> strip (s ++ String c "") = (lstrip s ++ String c "")%string.
Proof.
  intros Hc. unfold strip. rewrite lstrip_app_char by assumption.
  now apply rstrip_app_char.
Qed.

(** *** What [float] accepts *)

(** [fmul_int] multiplies the number a finite float stands for. *)
Lemma decimal_value_scale m e k :
  (decimal_value (m * k) e == inject_Z k * decimal_value m e)%Q.
Proof. unfold decimal_value. rewrite inject_Z_mult. ring. Qed.

Lemma fmul_int_value m e k :
  exists m', fmul_int (FNum m e) k = FNum m' e
             /\ (decimal_value m' e == inject_Z k * decimal_value m e)%Q.
Proof. exists (m * k). split; [reflexivity|apply decimal_value_scale]. Qed.

Lemma numeric_char_lower c : numeric_char (lower_ascii c) = numeric_char c.
Proof. each_ascii c; reflexivity. Qed.

Lemma numeric_char_space c : is_space c = true -> numeric_char c = true.
Proof. unfold numeric_char. now intros ->. Qed.

Lemma numeric_char_digit c : is_digit c = true -> numeric_char c = true.
Proof. unfold numeric_char. intros ->. now rewrite orb_true_r. Qed.

Lemma all_chars_lower s : all_chars numeric_char (lower s) = all_chars numeric_char s.
Proof.
  induction s as [|c s IH]; simpl; [reflexivity|].
  now rewrite numeric_char_lower, IH.
Qed.

Lemma all_chars_lstrip P s :
  all_chars P s = true -> all_chars P (lstrip s) = true.
Proof.
  induction s as [|c s IH]; simpl; [easy|].
  intros [Hc Hs]%andb_true_iff. destruct (is_space c); simpl; [auto|].
  now rewrite Hc, Hs.
Qed.



Lemma all_chars_lstrip_inv P s :
  (forall c, is_space c = true -> P c = true) ->
  all_chars P (lstrip s) = true -> all_chars P s = true.
Proof.
  intros HP. induction s as [|c s IH]; simpl; [easy|].
  destruct (is_space c) eqn:Ec; [|easy].
  intros Hs. now rewrite (HP c Ec), IH.
Qed.

Lemma all_chars_rstrip_inv P s :
  (forall c, is_space c = true -> P c = true) ->
  all_chars P (rstrip s) = true -> all_chars P s = true.
Proof.
  intros HP. induction s as [|c s IH]; simpl; [easy|].
  destruct (rstrip s) as [|d r]; simpl in *.
  - destruct (is_space c) eqn:Ec; simpl.
    + intros _. now rewrite (HP c Ec), IH.
    + rewrite andb_true_r. intros ->. now rewrite IH.
  - intros [Hc Hs]%andb_true_iff. now rewrite Hc, IH.
Qed.

Lemma all_chars_strip_inv P s :
  (forall c, is_space c = true -> P c = true) ->
  all_chars P (strip s) = true -> all_chars P s = true.
Proof.
  intros HP Hs. apply all_chars_lstrip_inv; [assumption|].
  now apply all_chars_rstrip_inv.
Qed.

Lemma all_chars_contains P c s :
  P c = false -> all_chars P s = true -> contains_char c s = false.
Proof.
  intros Hc. induction s as [|d s IH]; simpl; [easy|].
  intros [Hd Hs]%andb_true_iff. rewrite (IH Hs), orb_false_r.
  destruct (Ascii.eqb_spec d c); [congruence|reflexivity].
Qed.

Lemma digits_tail_chars s :
  forall acc n, all_chars numeric_char (digits_tail s acc n).2 = true ->
                all_chars numeric_char s = true.
Proof.
  remember (String.length s) as k eqn:Hk. revert s Hk.
  induction k as [k IH] using lt_wf_ind. intros s Hk acc n.
  destruct s as [|c s]; simpl; [easy|].
  destruct (is_digit c) eqn:Ec.
  - intros Hr. rewrite (numeric_char_digit c Ec). simpl.
    eapply (IH (String.length s)); [simpl in Hk; lia|reflexivity|exact Hr].
  - destruct (Ascii.eqb_spec c "_") as [->|]; [|easy].
    destruct s as [|c2 s]; [easy|].
    destruct (is_digit c2) eqn:Ec2; [|easy].
    intros Hr. simpl. rewrite (numeric_char_digit c2 Ec2). simpl.
    eapply (IH (String.length s)); [simpl in Hk; lia|reflexivity|exact Hr].
Qed.

Lemma digitpart_chars s acc :
  all_chars numeric_char (digitpart s acc).2 = true ->
  all_chars numeric_char s = true.
Proof.
  destruct s as [|c s]; simpl; [easy|].
  destruct (is_digit c) eqn:Ec; [|easy].
  intros Hr. rewrite (numeric_char_digit c Ec). simpl.
  eapply digits_tail_chars, Hr.
Qed.

Lemma sign_chars s :
  all_chars numeric_char (sign s).2 = true -> all_chars numeric_char s = true.
Proof.
  destruct s as [|c s]; [easy|].
  unfold sign. each_ascii c; simpl; easy.
Qed.

Lemma exponent_chars s x :
  exponent s = Some x -> all_chars numeric_char s = true.
Proof.
  destruct s as [|c s]; [easy|]. unfold exponent.
  destruct (Ascii.eqb c "e" || Ascii.eqb c "E") eqn:Ec; [|easy].
  destruct (sign s) as [neg s1] eqn:Es.
  destruct (digitpart s1 0) as [[v n] rest] eqn:Ed.
  destruct rest; [|easy]. intros _.
  assert (Hs : all_chars numeric_char s = true).
  { apply sign_chars. rewrite Es. simpl.
    apply (digitpart_chars s1 0). now rewrite Ed. }
  simpl. rewrite Hs, andb_true_r.
  apply orb_true_iff in Ec as [E|E]; apply Ascii.eqb_eq in E; now subst.
Qed.

Lemma floatnumber_chars s f :
  floatnumber s = Some f -> all_chars numeric_char s = true.
Proof.
  unfold floatnumber.
  destruct (digitpart s 0) as [[i ni] s1] eqn:Ei.
  intros Hf. apply (digitpart_chars s 0). rewrite Ei. simpl.
  assert (Hplain : forall m nf s2,
             (i, 0, s1) = (m, nf, s2) ->
             (if 0 <? ni + nf
              then match exponent s2 with
                   | Some x => Some (FNum m (x - nf))
                   | None => None
                   end
              else None) = Some f ->
             all_chars numeric_char s1 = true).
  { intros m nf s2 [= <- <- <-]. destruct (0 <? ni + 0); [|easy].
    destruct (exponent s1) eqn:Ee; [|easy]. intros _.
    eapply exponent_chars, Ee. }
  destruct s1 as [|c s1']; [now apply (Hplain i 0 ""%string)|].
  destruct (Ascii.eqb_spec c ".") as [->|Hc].
  - destruct (digitpart s1' i) as [[m nf] s2] eqn:Em.
    destruct (0 <? ni + nf); [|easy].
    destruct (exponent s2) eqn:Ee; [|easy].
    simpl. apply (digitpart_chars s1' i). rewrite Em. simpl.
    eapply exponent_chars, Ee.
  - apply (Hplain i 0 (String c s1')); [reflexivity|].
    revert Hf. each_ascii c; try exact (fun H => H). now contradiction Hc.
Qed.

Lemma absfloatvalue_chars s f :
  absfloatvalue s = Some f -> all_chars numeric_char s = true.
Proof.
  unfold absfloatvalue. rewrite <- (all_chars_lower s).
  destruct (String.eqb_spec (lower s) "inf") as [->|_]; [easy|].
  destruct (String.eqb_spec (lower s) "infinity") as [->|_]; [easy|].
  destruct (String.eqb_spec (lower s) "nan") as [->|_]; [easy|].
  simpl. rewrite all_chars_lower. apply floatnumber_chars.
Qed.

(** A text that [float] accepts is made of numeric characters only. *)
Lemma float_of_string_chars s f :
  float_of_string s = Ret f -> all_chars numeric_char s = true.
Proof.
  unfold float_of_string. destruct (sign (strip s)) as [neg s1] eqn:Es.
  destruct (absfloatvalue s1) as [g|] eqn:Ea; [|easy]. intros _.
  apply all_chars_strip_inv; [exact numeric_char_space|].
  apply sign_chars. rewrite Es. simpl. eapply absfloatvalue_chars, Ea.
Qed.

(** [float] fails with ValueError and nothing else. *)
Lemma float_of_string_cases s :
  (exists f, float_of_string s = Ret f) \/ float_of_string s = Raise ValueError.
Proof.
  unfold float_of_string. destruct (sign (strip s)) as [neg s1].
  destruct (absfloatvalue s1); eauto.
Qed.



(** ** The field normaliser *)




Lemma cleaned_numeric_suffix n c :
  all_chars numeric_char n = true ->
  is_space c = false -> Ascii.eqb c "$" = false -> Ascii.eqb c "," = false ->
  cleaned (n ++ String c "") = (lstrip n ++ String c "")%string.
Proof.
  intros Hn Hsp Hd Hc. unfold cleaned.
  rewrite !remove_char_app. simpl. rewrite Hd. simpl. rewrite Hc.
  rewrite (remove_char_absent "$" n) by now apply (all_chars_contains numeric_char).
  rewrite (remove_char_absent "," n) by now apply (all_chars_contains numeric_char).
  now apply strip_app_char.
Qed.



Lemma clean_currency_value_unfold s :
  clean_currency_value (PyStr s) =
  let c := cleaned s in
  if String.eqb (lower c) "none" || String.eqb c "" then Ret PyNone
  else
    catch_ValueError
      (f <-- float_of_string (numeric_remainder s) ;;
       Ret (PyFloat (if contains_char "B" c then fmul_int f 1000 else f)))
      (Ret PyNone).
Proof.
  unfold clean_currency_value, numeric_remainder. fold (cleaned s). simpl.
  destruct (String.eqb (lower (cleaned s)) "none" || String.eqb (cleaned s) "");
    [reflexivity|].
  destruct (contains_char "B" (cleaned s)); [reflexivity|].
  now destruct (contains_char "M" (cleaned s)).
Qed.















Lemma clean_currency_value_cases (v : pyval) :
  exists r, clean_currency_value v = Ret r
    /\ match v with
       | PyStr s =>
           (r = PyNone \/ exists f, r = PyFloat f)
           /\ (float_of_string (numeric_remainder s) = Raise ValueError ->
               r = PyNone)
       | _ => r = v
       end.
Proof.
  destruct v as [| b | z | f | s]; try (eexists; split; reflexivity).
  rewrite clean_currency_value_unfold. cbv zeta.
  destruct (_ || _).
  - exists PyNone. split; [reflexivity|]. split; [now left|reflexivity].
  - destruct (float_of_string_cases (numeric_remainder s)) as [[g Eg]|Eg];
      rewrite Eg; simpl.
    + eexists. split; [reflexivity|]. split; [right; eauto|discriminate].
    + exists PyNone. split; [reflexivity|]. split; [now left|reflexivity].
Qed.

(** C7, as the code has it. [clean_currency_value] returns for every
    input and never raises; for a text the result is [None] or a float,
    and [None] whenever [float] refuses the numeric part; every other
    value comes back as it went in. *)
Theorem clean_currency_value_total (v : pyval) :
  exists r, clean_currency_value v = Ret r
    /\ match v with
       | PyStr s =>
           (r = PyNone \/ exists f, r = PyFloat f)
           /\ (float_of_string (numeric_remainder s) = Raise ValueError ->
               r = PyNone)
       | _ => r = v
       end.
Proof. apply clean_currency_value_cases. Qed.

Lemma clean_currency_value_total_witness :
  clean_currency_value (PyStr "12 apples") = Ret PyNone.
Proof.
  destruct (clean_currency_value_total (PyStr "12 apples")) as (r & E & _ & Hr).
  rewrite E. f_equal. apply Hr. reflexivity.
Defined.

(** C7 as stated fails in its last clause: the NaN of an empty cell is
    not a text, comes back as NaN, and that is neither a decimal nor
    [None]. *)
Lemma nan_cell_comes_back :
  clean_currency_value (PyFloat FNan) = Ret (PyFloat FNan)
  /\ ~ decimal_or_absent (PyFloat FNan).
Proof.
  split; [reflexivity|]. intros [E | (m & e & E)]; discriminate.
Qed.

(** ** Batch shaping *)

(** C8, where the code parts from it. A text that is there is copied as
    it is and the empty text becomes [None]; the NaN of a missing field
    has already been turned into the text "nan" by [astype(str)] when the
    universal replacement runs, so it stays, against the comment of source
    line 115. *)
Theorem shape_text_cases :
  (forall c s, shape_text (RawText (String c s)) = Some (String c s))
  /\ shape_text (RawText "") = None
  /\ shape_text RawNaN = Some "nan"%string.
Proof. repeat split. Qed.


Section ShapingFacts.
Context `{PandasParsers}.



End ShapingFacts.

(** ** The date dimension *)

Lemma weekday_range d : 0 <= weekday d < 7.
Proof. unfold weekday. apply Z.mod_pos_bound. lia. Qed.

Lemma make_date_attrs_agree d : date_attrs_agree (make_date_attrs d).
Proof.
  unfold date_attrs_agree, make_date_attrs. simpl.
  repeat (split; [reflexivity|]).
  pose proof (weekday_range d) as Hw.
  assert (Hc : weekday d = 0 \/ weekday d = 1 \/ weekday d = 2 \/ weekday d = 3
               \/ weekday d = 4 \/ weekday d = 5 \/ weekday d = 6) by lia.
  destruct Hc as [-> | [-> | [-> | [-> | [-> | [-> | ->]]]]]]; simpl;
    (split; [intros E; try discriminate E; eexists; split; reflexivity
            |intros (n & [= <-] & E); try discriminate E; reflexivity]).
Qed.

Lemma dict_update_app m rows rows' :
  dict_update m (rows ++ rows') = dict_update (dict_update m rows) rows'.
Proof. apply fold_left_app. Qed.

Lemma dict_update_None m rows d :
  dict_update m rows !! d = None <-> m !! d = None /\ d ∉ rows.*1.
Proof.
  revert m. induction rows as [|[d' k] rows IH]; intros m; simpl.
  - split; [intros E; split; [exact E|apply not_elem_of_nil]|now intros [E _]].
  - rewrite IH, not_elem_of_cons. simpl.
    destruct (decide (d' = d)) as [->|Hne].
    + rewrite lookup_insert_eq. split; [now intros [? _]|now intros [_ [? _]]].
    + rewrite lookup_insert_ne by assumption.
      split; [intros [E Hd]; repeat split; auto|intros [E [_ Hd]]; now split].
Qed.

Lemma date_pairs_fst rows :
  (date_pairs rows).*1 = map (fun r => full_date (date_cols r)) rows.
Proof. unfold date_pairs. rewrite <- list_fmap_compose. reflexivity. Qed.

Lemma existing_None t d :
  dict_update ∅ (date_pairs (dim_date t)) !! d = None <-> d ∉ stored_dates t.
Proof.
  rewrite dict_update_None, date_pairs_fst, lookup_empty. unfold stored_dates.
  split; [now intros [_ Hd]|now split].
Qed.

(** *** Lists *)

Lemma filter_all {A} (P : A -> Prop) `{forall x, Decision (P x)} (l : list A) :
  (forall x, x ∈ l -> P x) -> filter P l = l.
Proof.
  induction l as [|x l IH]; intros Hl; [reflexivity|].
  rewrite filter_cons_True by (apply Hl; left).
  f_equal. apply IH. intros y Hy. apply Hl. now right.
Qed.

Lemma filter_none {A} (P : A -> Prop) `{forall x, Decision (P x)} (l : list A) :
  (forall x, x ∈ l -> ~ P x) -> filter P l = [].
Proof.
  induction l as [|x l IH]; intros Hl; [reflexivity|].
  rewrite filter_cons_False by (apply Hl; left).
  apply IH. intros y Hy. apply Hl. now right.
Qed.

Lemma elem_of_map {A B} (f : A -> B) (l : list A) (y : B) :
  y ∈ map f l <-> exists x, y = f x /\ x ∈ l.
Proof. apply (list_elem_of_fmap f). Qed.

Lemma map_filter_comm {A B} (f : A -> B) (P : B -> Prop) `{forall y, Decision (P y)}
    (l : list A) :
  filter P (map f l) = map f (filter (fun x => P (f x)) l).
Proof.
  induction l as [|x l IH]; [reflexivity|]. simpl.
  rewrite !filter_cons. destruct (decide (P (f x))); simpl; now rewrite IH.
Qed.

Section DropDuplicates.
Context {A K : Type} `{EqDecision K} (key : A -> K).

Lemma drop_duplicates_from_elem seen l x :
  x ∈ drop_duplicates_from key seen l -> x ∈ l /\ key x ∉ seen.
Proof.
  revert seen. induction l as [|y l IH]; intros seen; simpl.
  - intros Hx. now apply elem_of_nil in Hx.
  - destruct (decide (key y ∈ seen)) as [Hy|Hy].
    + intros Hx. destruct (IH _ Hx). split; [now right|assumption].
    + intros [->|Hx]%elem_of_cons; [split; [left|assumption]|].
      destruct (IH _ Hx) as [Hl Hs]. split; [now right|].
      intros Hin. apply Hs. now right.
Qed.

Lemma drop_duplicates_from_NoDup seen l :
  NoDup (map key (drop_duplicates_from key seen l)).
Proof.
  revert seen. induction l as [|y l IH]; intros seen; simpl; [constructor|].
  destruct (decide (key y ∈ seen)); [apply IH|].
  simpl. constructor; [|apply IH].
  intros (x & Ex & Hx)%elem_of_map.
  apply drop_duplicates_from_elem in Hx as [_ Hx]. apply Hx. rewrite Ex. left.
Qed.

(** Every key of the list is kept once, unless it was seen before. *)
Lemma drop_duplicates_from_covers seen l x :
  x ∈ l -> key x ∈ seen \/ key x ∈ map key (drop_duplicates_from key seen l).
Proof.
  revert seen. induction l as [|y l IH]; intros seen; simpl.
  - intros Hx. now apply elem_of_nil in Hx.
  - intros [->|Hx]%elem_of_cons.
    + destruct (decide (key y ∈ seen)); [now left|right; simpl; left].
    + destruct (decide (key y ∈ seen)); [now apply IH|].
      destruct (IH (key y :: seen) Hx) as [[->|Hs]%elem_of_cons|Hr].
      * right. simpl. left.
      * now left.
      * right. simpl. now right.
Qed.

(** A row that is kept is the first of the list with its key. *)
Lemma drop_duplicates_from_first seen l x :
  x ∈ drop_duplicates_from key seen l ->
  exists l1 l2, l = l1 ++ x :: l2 /\ forall y, y ∈ l1 -> key y <> key x.
Proof.
  revert seen. induction l as [|y l IH]; intros seen; simpl.
  - intros Hx. now apply elem_of_nil in Hx.
  - destruct (decide (key y ∈ seen)) as [Hy|Hy].
    + intros Hx. pose proof (drop_duplicates_from_elem _ _ _ Hx) as [_ Hs].
      destruct (IH _ Hx) as (l1 & l2 & -> & Hl1).
      exists (y :: l1), l2. split; [reflexivity|].
      intros z [->|Hz]%elem_of_cons; [congruence|now apply Hl1].
    + intros [->|Hx]%elem_of_cons.
      * exists [], l. split; [reflexivity|]. intros z Hz. now apply elem_of_nil in Hz.
      * pose proof (drop_duplicates_from_elem _ _ _ Hx) as [_ Hs].
        destruct (IH _ Hx) as (l1 & l2 & -> & Hl1).
        exists (y :: l1), l2. split; [reflexivity|].
        intros z [->|Hz]%elem_of_cons; [|now apply Hl1].
        intros E. apply Hs. rewrite <- E. left.
Qed.

End DropDuplicates.

Lemma unique_NoDup {A} `{EqDecision A} (l : list A) : NoDup (unique l).
Proof.
  unfold unique, drop_duplicates.
  rewrite <- (map_id (drop_duplicates_from _ _ _)).
  apply (drop_duplicates_from_NoDup (fun x => x)).
Qed.

Lemma unique_elem {A} `{EqDecision A} (l : list A) x : x ∈ unique l <-> x ∈ l.
Proof.
  unfold unique, drop_duplicates. split.
  - intros Hx. now apply (drop_duplicates_from_elem (fun x => x)) in Hx.
  - intros Hx.
    destruct (drop_duplicates_from_covers (fun x => x) [] l x Hx) as [Hs|Hr].
    + now apply elem_of_nil in Hs.
    + now rewrite map_id in Hr.
Qed.

Section DateFacts.
Context `{StorageConstraints}.

Lemma number_dates_dates k rows :
  map (fun r => full_date (date_cols r)) (number_dates k rows) = map full_date rows.
Proof. revert k. induction rows as [|a rows IH]; intros k; simpl; [|rewrite IH]; reflexivity. Qed.

Lemma number_dates_cols k rows r :
  r ∈ number_dates k rows -> date_cols r ∈ rows.
Proof.
  revert k. induction rows as [|a rows IH]; intros k; simpl.
  - intros Hr. now apply elem_of_nil in Hr.
  - intros [-> | Hr]%elem_of_cons; [left|right; eauto].
Qed.

(** The date step, statement by statement. *)
Lemma reconcile_dates_eq unique_dates c :
  reconcile_dates unique_dates c =
  let existing_date_map := dict_update ∅ (date_pairs (dim_date (current c))) in
  let new := new_dates (current c) unique_dates in
  let c1 := log SelectDimDate c in
  match new with
  | [] => (Ret existing_date_map, c1)
  | _ :: _ =>
      let c2 := log (InsertDimDate new) c1 in
      if existsb (dim_date_rejects (current c)) new then (Raise StorageError, c2)
      else
        let t := with_dim_date (dim_date (current c) ++ number_dates (date_seq c) new)
                               (current c) in
        (Ret (dict_update existing_date_map
                (date_pairs (filter (fun r => full_date (date_cols r) ∈ map full_date new)
                                    (dim_date t)))),
         {| committed := t; current := t;
            date_seq := date_seq c + Z.of_nat (length new);
            company_seq := company_seq c;
            statements := statements c ++ [SelectDimDate; InsertDimDate new; Commit;
                                           SelectDimDateIn (map full_date new)] |})
  end.
Proof.
  unfold reconcile_dates, new_dates, mbind, select_dim_date. simpl.
  destruct (filter _ (map make_date_attrs unique_dates)) as [|a new] eqn:E;
    [reflexivity|].
  unfold to_sql_dim_date. simpl.
  destruct (dim_date_rejects (current c) a || existsb (dim_date_rejects (current c)) new);
    [reflexivity|].
  simpl. unfold mret, log. simpl. rewrite <- !app_assoc. reflexivity.
Qed.

Lemma new_dates_elem t ds a :
  a ∈ new_dates t ds <->
  ((full_date a ∉ stored_dates t) /\ exists d, a = make_date_attrs d /\ d ∈ ds).
Proof.
  unfold new_dates. rewrite list_elem_of_filter, existing_None, elem_of_map.
  reflexivity.
Qed.

Lemma new_dates_dates t ds :
  map full_date (new_dates t ds) = filter (fun d => d ∉ stored_dates t) ds.
Proof.
  unfold new_dates.
  rewrite (list_filter_iff _ (fun r => full_date r ∉ stored_dates t))
    by (intros r; apply existing_None).
  rewrite (map_filter_comm make_date_attrs (fun r => full_date r ∉ stored_dates t)).
  rewrite map_map. simpl. apply map_id.
Qed.

Lemma stored_dates_append t rows :
  stored_dates (with_dim_date (dim_date t ++ rows) t)
  = stored_dates t ++ map (fun r => full_date (date_cols r)) rows.
Proof. unfold stored_dates. simpl. apply map_app. Qed.

(** Once the new dates are in, none of the dates is new. *)
Lemma new_dates_after t k ds :
  new_dates (with_dim_date (dim_date t ++ number_dates k (new_dates t ds)) t) ds = [].
Proof.
  set (t' := with_dim_date _ t).
  unfold new_dates at 1. apply filter_none.
  intros a (d & -> & Hd)%elem_of_map. rewrite existing_None. simpl.
  intros Hn. apply Hn. unfold t'.
  rewrite stored_dates_append, number_dates_dates, elem_of_app.
  destruct (decide (d ∈ stored_dates t)) as [Hs|Hs]; [now left|right].
  apply elem_of_map. exists (make_date_attrs d). split; [reflexivity|].
  apply new_dates_elem. split; [exact Hs|]. now exists d.
Qed.

(** The second query of the step finds the rows just inserted, and them
    only. *)
Lemma requery_new t k ds :
  filter (fun r => full_date (date_cols r) ∈ map full_date (new_dates t ds))
         (dim_date t ++ number_dates k (new_dates t ds))
  = number_dates k (new_dates t ds).
Proof.
  rewrite filter_app, filter_none, filter_all; [reflexivity| |].
  - intros r Hr. apply elem_of_map. exists (date_cols r). split; [reflexivity|].
    eapply number_dates_cols, Hr.
  - intros r Hr (a & Ea & [Ha _]%new_dates_elem)%elem_of_map.
    apply Ha. rewrite <- Ea. unfold stored_dates. apply elem_of_map. now exists r.
Qed.

Lemma new_dates_NoDup t ds :
  NoDup ds -> NoDup (map full_date (new_dates t ds)).
Proof. rewrite new_dates_dates. apply NoDup_filter. Qed.

(** The date step keeps [full_date] unique in dim_date, whatever its
    outcome. *)
Lemma reconcile_dates_NoDup ds c :
  NoDup ds -> NoDup (stored_dates (current c)) ->
  NoDup (stored_dates (current (reconcile_dates ds c).2)).
Proof.
  intros Hds Hc. rewrite reconcile_dates_eq. cbv zeta.
  destruct (new_dates (current c) ds) as [|a new] eqn:E; [exact Hc|].
  destruct (existsb _ _); [exact Hc|]. cbn [snd current].
  rewrite <- E. rewrite stored_dates_append, number_dates_dates.
  apply NoDup_app. split; [exact Hc|]. split; [|now apply new_dates_NoDup].
  intros d Hd (a' & -> & [Ha _]%new_dates_elem)%elem_of_map. now apply Ha.
Qed.

(** The mapping returned is the whole of dim_date as the step leaves it. *)
Lemma reconcile_dates_map ds c m c1 :
  reconcile_dates ds c = (Ret m, c1) ->
  m = dict_update ∅ (date_pairs (dim_date (current c1)))
  /\ new_dates (current c1) ds = []
  /\ committed c1 = (if new_dates (current c) ds is [] then committed c else current c1).
Proof.
  rewrite reconcile_dates_eq. cbv zeta.
  destruct (new_dates (current c) ds) as [|a new] eqn:E.
  - intros [= <- <-]. simpl. now rewrite E.
  - destruct (existsb _ _); [discriminate|].
    intros Heq. rewrite <- E in Heq. injection Heq as <- <-.
    cbn [current committed dim_date with_dim_date]. rewrite requery_new. split; [|split; [apply new_dates_after|reflexivity]].
    unfold date_pairs. rewrite map_app. symmetry. apply dict_update_app.
Qed.

(** C1. When the date step has gone through for the distinct load dates
    of a batch, a second run on what it left returns the same mapping,
    sends the one SELECT and no insert, and leaves the tables and the key
    sequence as they were; and if [full_date] was unique in dim_date
    before the first run it is so after both. *)
Theorem reconcile_dates_idempotent (load_dates : list date) c m c1 :
  reconcile_dates (unique load_dates) c = (Ret m, c1) ->
  exists c2,
    reconcile_dates (unique load_dates) c1 = (Ret m, c2)
    /\ current c2 = current c1
    /\ committed c2 = committed c1
    /\ date_seq c2 = date_seq c1
    /\ statements c2 = statements c1 ++ [SelectDimDate]
    /\ (NoDup (stored_dates (current c)) ->
        NoDup (stored_dates (current c1)) /\ NoDup (stored_dates (current c2))).
Proof.
  intros H1. pose proof (reconcile_dates_map _ _ _ _ H1) as (Hm & Hnew & _).
  exists (log SelectDimDate c1).
  split; [|split; [|split; [|split; [|split]]]]; try reflexivity.
  - rewrite reconcile_dates_eq. cbv zeta. now rewrite Hnew, <- Hm.
  - intros Hc.
    pose proof (reconcile_dates_NoDup (unique load_dates) c (unique_NoDup _) Hc) as Hn.
    rewrite H1 in Hn. now split.
Qed.

(** C9. Whatever the date step does, a row of dim_date that was not
    there before carries the year, month and day of its [full_date], its
    weekday index (Monday 0 .. Sunday 6), and [is_weekday] exactly when
    that index names one of Monday .. Friday. *)
Theorem date_rows_agree (unique_dates : list date) c (r : dim_date_row) :
  r ∈ dim_date (current (reconcile_dates unique_dates c).2) ->
  r ∈ dim_date (current c) \/ date_attrs_agree (date_cols r).
Proof.
  rewrite reconcile_dates_eq. cbv zeta.
  destruct (new_dates (current c) unique_dates) as [|a new] eqn:E; [now left|].
  destruct (existsb _ _); [now left|]. cbn [snd current dim_date with_dim_date].
  intros [Hr|Hr]%elem_of_app; [now left|right].
  apply number_dates_cols in Hr. rewrite <- E in Hr.
  apply new_dates_elem in Hr as (_ & d & -> & _). apply make_date_attrs_agree.
Qed.

End DateFacts.

Lemma reconcile_dates_idempotent_witness :
  exists c2,
    @reconcile_dates sample_schema (unique [sample_day; sample_day])
      (@reconcile_dates sample_schema (unique [sample_day; sample_day])
         fresh_connection).2
    = (Ret {[sample_day := 1]}, c2)
    /\ current c2 = with_dim_date
                      [{| date_key := 1; date_cols := make_date_attrs sample_day |}]
                      empty_tables.
Proof.
  assert (H1 : @reconcile_dates sample_schema (unique [sample_day; sample_day])
                 fresh_connection
               = (Ret {[sample_day := 1]},
                  (@reconcile_dates sample_schema (unique [sample_day; sample_day])
                     fresh_connection).2))
    by (vm_compute; reflexivity).
  destruct (@reconcile_dates_idempotent sample_schema [sample_day; sample_day]
              fresh_connection _ _ H1)
    as (c2 & H2 & Hc & _).
  exists c2. split; [exact H2|]. rewrite Hc. vm_compute. reflexivity.
Defined.

Lemma date_rows_agree_witness :
  date_attrs_agree (make_date_attrs sample_day).
Proof.
  destruct (@date_rows_agree sample_schema [sample_day] fresh_connection
              {| date_key := 1; date_cols := make_date_attrs sample_day |})
    as [Hold|Hnew].
  - vm_compute. left.
  - now apply elem_of_nil in Hold.
  - exact Hnew.
Defined.

(** ** The company dimension and the facts *)

Lemma company_writes_app l l' :
  company_writes (l ++ l') = company_writes l ++ company_writes l'.
Proof.
  induction l as [|s l IH]; simpl; [reflexivity|].
  destruct s; simpl; now rewrite IH.
Qed.

Lemma company_selects_app l l' :
  company_selects (l ++ l') = company_selects l ++ company_selects l'.
Proof.
  induction l as [|s l IH]; simpl; [reflexivity|].
  destruct s; simpl; now rewrite IH.
Qed.


Section LoadFacts.
Context `{StorageConstraints}.

(** The body of the fact loop, case by case. *)
Lemma upsert_fact_row_eq row w s c :
  upsert_fact_row row (w, s) c =
  match keyed_fact row with
  | None => (Ret (w, s + 1), c)
  | Some v =>
      let c1 := log (UpsertFact v) (log Savepoint c) in
      if fact_rejects (current c) v
      then (Ret (w, s + 1), log Rollback (with_current (committed c) c1))
      else (Ret (w + 1, s), (commit (upsert_fact v (log Savepoint c)).2).2)
  end.
Proof.
  unfold upsert_fact_row, keyed_fact.
  destruct (company_key_cell row) as [ck|]; [|reflexivity].
  destruct (load_date_key row) as [dk|]; [|reflexivity].
  unfold try_except, mbind, begin_nested, upsert_fact. simpl.
  destruct (fact_rejects (current c) _); reflexivity.
Qed.





(** The body of the company loop, case by case. *)
Lemma reconcile_company_eq row df ins upd c :
  reconcile_company row (df, ins, upd) c =
  let name := company_name row in
  let data := insert_update_data row in
  let c1 := log (SelectCompany name) (log Savepoint c) in
  match (select_company_key name (log Savepoint c)).1 with
  | Ret (Some k) =>
      if dim_company_rejects (current c) data
      then (Ret (set_company_key name None df, ins, upd),
            log Rollback (with_current (committed c) (log (UpdateCompany data) c1)))
      else (Ret (set_company_key name (Some k) df, ins, upd + 1),
            (commit (update_company data c1).2).2)
  | _ =>
      if dim_company_rejects (current c) data
      then (Ret (set_company_key name None df, ins, upd),
            log Rollback (with_current (committed c) (log (InsertCompany data) c1)))
      else (Ret (set_company_key name (Some (company_seq c)) df, ins + 1, upd),
            (commit (insert_company data c1).2).2)
  end.
Proof.
  unfold reconcile_company, try_except, mbind, begin_nested, select_company_key.
  cbn [fst snd current log].
  destruct (head _) as [r|]; cbn [fmap option_fmap option_map];
    unfold update_company, insert_company; cbn [current log];
    destruct (dim_company_rejects (current c) _); reflexivity.
Qed.

Lemma reconcile_company_step row df ins upd c :
  exists k ins' upd' c1 l1,
    reconcile_company row (df, ins, upd) c
    = (Ret (set_company_key (company_name row) k df, ins', upd'), c1)
    /\ statements c1 = statements c ++ l1
    /\ company_writes l1 = [insert_update_data row]
    /\ company_selects l1 = [company_name row]
    /\ current c1 = committed c1
    /\ (dim_company_rejects (current c) (insert_update_data row) = true ->
        k = None /\ ins' = ins /\ upd' = upd /\ committed c1 = committed c).
Proof.
  rewrite reconcile_company_eq. cbv zeta.
  unfold select_company_key, update_company, insert_company.
  cbn [fst snd current log].
  destruct (head _) as [r|]; cbn [fmap option_fmap option_map];
    destruct (dim_company_rejects (current c) _) eqn:Er.
  - eexists None, ins, upd, _, [Savepoint; SelectCompany _; UpdateCompany _; Rollback].
    split; [reflexivity|]. simpl. rewrite <- !app_assoc. repeat split.
  - eexists (Some _), ins, (upd + 1), _,
      [Savepoint; SelectCompany _; UpdateCompany _; Commit].
    split; [reflexivity|]. simpl. rewrite <- !app_assoc.
    repeat split; discriminate.
  - eexists None, ins, upd, _, [Savepoint; SelectCompany _; InsertCompany _; Rollback].
    split; [reflexivity|]. simpl. rewrite <- !app_assoc. repeat split.
  - eexists (Some _), (ins + 1), upd, _,
      [Savepoint; SelectCompany _; InsertCompany _; Commit].
    split; [reflexivity|]. simpl. rewrite <- !app_assoc.
    repeat split; discriminate.
Qed.

Lemma sql_eq_same a b b' : sql_eq a b = true -> sql_eq a b' = true -> b = b'.
Proof.
  destruct a as [x|], b as [y|], b' as [y'|]; simpl; try discriminate.
  intros ->%String.eqb_eq ->%String.eqb_eq. reflexivity.
Qed.

Lemma set_company_key_keyless name df : keyless name (set_company_key name None df).
Proof.
  intros r (r0 & -> & _)%elem_of_map.
  destruct (sql_eq (company_name (rec r0)) name) eqn:E; simpl; [reflexivity|].
  now rewrite E.
Qed.

Lemma set_company_key_other name name' v df :
  name' <> name -> keyless name df -> keyless name (set_company_key name' v df).
Proof.
  intros Hne Hk r (r0 & -> & Hr0)%elem_of_map.
  destruct (sql_eq (company_name (rec r0)) name') eqn:E; simpl; [|now apply Hk].
  intros E'. destruct Hne. eapply sql_eq_same; eassumption.
Qed.

Lemma reconcile_companies_loop_spec rows :
  forall df ins upd c,
  exists df' ins' upd' c' l,
    reconcile_companies_loop rows (df, ins, upd) c = (Ret (df', ins', upd'), c')
    /\ statements c' = statements c ++ l
    /\ company_writes l = map insert_update_data rows
    /\ company_selects l = map company_name rows
    /\ (forall name, name ∉ map company_name rows -> keyless name df ->
                     keyless name df')
    /\ length df' = length df
    /\ (current c = committed c -> current c' = committed c').
Proof.
  induction rows as [|row rows IH]; intros df ins upd c.
  - exists df, ins, upd, c, []. rewrite app_nil_r. repeat split; auto.
  - cbn [reconcile_companies_loop]. unfold mbind.
    destruct (reconcile_company_step row df ins upd c)
      as (k & ins1 & upd1 & c1 & l1 & -> & Hl1 & Hw1 & Hs1 & Hc1 & _).
    destruct (IH (set_company_key (company_name row) k df) ins1 upd1 c1)
      as (df' & ins' & upd' & c' & l & -> & Hl & Hw & Hs & Hk & Hlen & Hc).
    exists df', ins', upd', c', (l1 ++ l).
    split; [reflexivity|]. split; [now rewrite Hl, Hl1, app_assoc|].
    split; [now rewrite company_writes_app, Hw1, Hw|].
    split; [now rewrite company_selects_app, Hs1, Hs|].
    split; [|split; [rewrite Hlen; apply length_map|auto]].
    intros name Hn Hdf. simpl in Hn. apply not_elem_of_cons in Hn as [Hne Hn].
    apply Hk; [exact Hn|]. apply set_company_key_other; [congruence|exact Hdf].
Qed.



Lemma reconcile_companies_loop_app rows1 rows2 st c :
  reconcile_companies_loop (rows1 ++ rows2) st c
  = match reconcile_companies_loop rows1 st c with
    | (Ret st1, c1) => reconcile_companies_loop rows2 st1 c1
    | (Raise e, c1) => (Raise e, c1)
    end.
Proof.
  revert st c. induction rows1 as [|row rows1 IH]; intros st c; [reflexivity|].
  cbn [app reconcile_companies_loop]. unfold mbind.
  destruct (reconcile_company row st c) as [[st1|e] c1]; [apply IH|reflexivity].
Qed.

Lemma dim_company_df_NoDup (df : list df_row) :
  NoDup (map company_name (drop_duplicates company_name (map rec df))).
Proof. apply drop_duplicates_from_NoDup. Qed.

(** C3. The company step returns for every data frame and every state
    of the storage, having looked up every distinct company in order. And
    when the write for one company is refused, that turn of the loop still
    returns: the tables are back to what was last committed (which, on a
    connection with nothing pending at the start of the step, is how the
    companies before it left them), the counters are as before, the loop
    goes on through all the companies after it, and at the end of the step
    no row of that company has a key. *)
Theorem reconcile_companies_never_raises (df : list df_row) (c : connection) :
  (exists df' ins upd c',
     reconcile_companies df c = (Ret (df', ins, upd), c')
     /\ company_selects (statements c')
        = company_selects (statements c)
          ++ map company_name (drop_duplicates company_name (map rec df)))
  /\ (forall rows1 row rows2 df1 ins1 upd1 c1,
        drop_duplicates company_name (map rec df) = rows1 ++ row :: rows2 ->
        reconcile_companies_loop rows1 (df, 0, 0) c = (Ret (df1, ins1, upd1), c1) ->
        dim_company_rejects (current c1) (insert_update_data row) = true ->
        exists c2 df' ins upd c',
          reconcile_company row (df1, ins1, upd1) c1
          = (Ret (set_company_key (company_name row) None df1, ins1, upd1), c2)
          /\ current c2 = committed c1
          /\ committed c2 = committed c1
          /\ (current c = committed c -> current c2 = current c1)
          /\ reconcile_companies_loop rows2
               (set_company_key (company_name row) None df1, ins1, upd1) c2
             = (Ret (df', ins, upd), c')
          /\ reconcile_companies df c = (Ret (df', ins, upd), (commit c').2)
          /\ keyless (company_name row) df').
Proof.
  split.
  - unfold reconcile_companies, mbind.
    destruct (reconcile_companies_loop_spec
                (drop_duplicates company_name (map rec df)) df 0 0 c)
      as (df' & ins & upd & c' & l & -> & Hl & _ & Hs & _).
    eexists df', ins, upd, _. split; [reflexivity|].
    simpl. rewrite Hl, !company_selects_app, Hs. simpl. now rewrite app_nil_r.
  - intros rows1 row rows2 df1 ins1 upd1 c1 Hrows H1 Hrej.
    destruct (reconcile_company_step row df1 ins1 upd1 c1)
      as (k & ins' & upd' & c2 & l1 & E2 & _ & _ & _ & Hcur & Hr).
    destruct (Hr Hrej) as (-> & -> & -> & Hcom).
    destruct (reconcile_companies_loop_spec rows2
                (set_company_key (company_name row) None df1) ins1 upd1 c2)
      as (df' & ins & upd & c' & l & E3 & _ & _ & _ & Hk & _).
    exists c2, df', ins, upd, c'.
    split; [exact E2|]. split; [congruence|]. split; [exact Hcom|].
    split.
    { intros Hc0.
      destruct (reconcile_companies_loop_spec rows1 df 0 0 c)
        as (? & ? & ? & ? & ? & E1 & _ & _ & _ & _ & _ & Hc1).
      rewrite H1 in E1. injection E1 as <- <- <- <-.
      rewrite (Hc1 Hc0). congruence. }
    split; [exact E3|]. split.
    + unfold reconcile_companies, mbind.
      rewrite Hrows, reconcile_companies_loop_app, H1.
      cbn [reconcile_companies_loop]. unfold mbind. rewrite E2, E3. reflexivity.
    + apply Hk; [|apply set_company_key_keyless].
      pose proof (dim_company_df_NoDup df) as Hnd. rewrite Hrows in Hnd.
      rewrite map_app in Hnd. apply NoDup_app in Hnd as (_ & _ & Hnd).
      simpl in Hnd. now apply NoDup_cons in Hnd as [Hn _].
Qed.

(** C10. Of the rows of a batch that bear one company name, the company
    step takes up the first in batch order and no other: the rows it works
    on have distinct names, every name of the batch is among them, each is
    the first row of the batch with its name, each name is looked up
    once, and the rows carried by the UPDATE and INSERT statements are
    theirs, one each, in order. *)
Theorem duplicates_first_wins (df : list df_row) (c : connection) :
  let rows := drop_duplicates company_name (map rec df) in
  NoDup (map company_name rows)
  /\ (forall r, r ∈ df -> company_name (rec r) ∈ map company_name rows)
  /\ (forall row, row ∈ rows ->
        exists l1 l2, map rec df = l1 ++ row :: l2
                      /\ forall y, y ∈ l1 -> company_name y <> company_name row)
  /\ company_selects (statements (reconcile_companies df c).2)
     = company_selects (statements c) ++ map company_name rows
  /\ company_writes (statements (reconcile_companies df c).2)
     = company_writes (statements c) ++ map insert_update_data rows.
Proof.
  cbv zeta. split; [apply dim_company_df_NoDup|]. split; [|split; [|split]].
  - intros r Hr.
    destruct (drop_duplicates_from_covers company_name [] (map rec df) (rec r))
      as [Hs|Hin]; [apply elem_of_map; eauto| |exact Hin].
    now apply elem_of_nil in Hs.
  - intros row Hrow. eapply drop_duplicates_from_first, Hrow.
  - unfold reconcile_companies, mbind.
    destruct (reconcile_companies_loop_spec
                (drop_duplicates company_name (map rec df)) df 0 0 c)
      as (df' & ins & upd & c' & l & -> & Hl & _ & Hs & _).
    simpl. rewrite Hl, !company_selects_app, Hs. simpl. now rewrite app_nil_r.
  - unfold reconcile_companies, mbind.
    destruct (reconcile_companies_loop_spec
                (drop_duplicates company_name (map rec df)) df 0 0 c)
      as (df' & ins & upd & c' & l & -> & Hl & Hw & _).
    simpl. rewrite Hl, !company_writes_app, Hw. simpl. now rewrite app_nil_r.
Qed.

End LoadFacts.

(** ** The cycle *)



Section CycleFacts.
Context `{PandasParsers} `{StorageConstraints}.




End CycleFacts.

(** ** The properties on the sample batch *)


Lemma reconcile_companies_never_raises_witness :
  exists df' ins upd c',
    @reconcile_companies sample_schema sample_frame fresh_connection
    = (Ret (df', ins, upd), c')
    /\ keyless (Some "Void"%string) df'.
Proof.
  destruct (@reconcile_companies_never_raises sample_schema sample_frame
              fresh_connection) as [_ Hfail].
  pose (x := @reconcile_companies_loop sample_schema [nth 0 sample_records (rec void_row)]
               (sample_frame, 0, 0) fresh_connection).
  destruct (Hfail [nth 0 sample_records (rec void_row)] (rec void_row)
                  [nth 3 sample_records (rec void_row)]
                  (match x.1 with Ret st => st.1.1 | Raise _ => [] end)
                  (match x.1 with Ret st => st.1.2 | Raise _ => 0 end)
                  (match x.1 with Ret st => st.2 | Raise _ => 0 end)
                  x.2)
    as (c2 & df' & ins & upd & c' & _ & _ & _ & _ & _ & E & Hk).
  - vm_compute. reflexivity.
  - vm_compute. reflexivity.
  - vm_compute. reflexivity.
  - exists df', ins, upd, (commit c').2. split; [exact E|exact Hk].
Defined.

Lemma duplicates_first_wins_witness :
  exists l1 l2,
    map rec sample_frame = l1 ++ nth 0 sample_records (rec void_row) :: l2
    /\ forall y, y ∈ l1 -> company_name y <> Some "Acme"%string.
Proof.
  destruct (@duplicates_first_wins sample_schema sample_frame fresh_connection)
    as (_ & _ & Hfirst & _).
  apply (Hfirst (nth 0 sample_records (rec void_row))).
  vm_compute. left.
Defined.


Example acme_valuation :
  clean_currency_value (PyStr "$2B") = Ret (PyFloat (FNum 2000 0)).
Proof. reflexivity. Qed.

Example float_texts :
  float_of_string " 1_000.5e-1 " = Ret (FNum 10005 (-2))
  /\ float_of_string "-.5" = Ret (FNum (-5) (-1))
  /\ float_of_string "+Infinity" = Ret (FInf false)
  /\ float_of_string "1__0" = Raise ValueError
  /\ float_of_string "1e" = Raise ValueError
  /\ float_of_string "." = Raise ValueError.
Proof. repeat split. Qed.

Example new_year_2024_is_a_monday :
  weekday sample_day = 0 /\ day_of_index (weekday sample_day) = Some Monday
  /\ weekday (Date 2024 1 6) = 5 /\ is_weekday (make_date_attrs (Date 2024 1 6)) = false.
Proof. repeat split. Qed.

(** The sample batch, loaded twice on the same day: one date row, the
    two companies the schema takes, one fact per company holding the
    values of the last row of the batch for it; the second cycle updates
    and adds nothing. *)
Example sample_cycle_twice :
  let r1 := @load_cycle sample_parsers sample_schema sample_day sample_batch
              fresh_connection in
  let r2 := @load_cycle sample_parsers sample_schema sample_day sample_batch
              (conn r1) in
  outcome r1 = Completed {| companies_inserted := 2; companies_updated := 0;
                            facts_written := 2; facts_skipped := 2 |}
  /\ outcome r2 = Completed {| companies_inserted := 0; companies_updated := 2;
                               facts_written := 2; facts_skipped := 2 |}
  /\ committed (conn r2) = committed (conn r1)
  /\ length (dim_date (committed (conn r2))) = 1%nat
  /\ map (fun r => ca_company_name (company_cols r)) (dim_company (committed (conn r2)))
     = [Some "Acme"; Some "Zeta"]%string
  /\ map (fun r => ca_industry (company_cols r)) (dim_company (committed (conn r2)))
     = [Some "Fintech"; Some "Health"]%string
  /\ map fv_valuation_billion (fact_unicorn_snapshot (committed (conn r2)))
     = [PyFloat (FNum 3000 0)].
Proof. vm_compute. repeat split. Qed.

(** The missing City of the sample rows goes to dim_company as the text
    "nan". *)
Example missing_city_reaches_storage :
  map ca_city
      (company_writes
         (statements
            (conn (@load_cycle sample_parsers sample_schema sample_day
                     sample_batch fresh_connection))))
  = [Some "nan"; Some "nan"; Some "nan"]%string.
Proof. vm_compute. reflexivity. Qed.

(** * Further properties *)

(** ** The field normaliser, beyond the three forms *)

Lemma all_chars_app P s t :
  all_chars P (s ++ t) = all_chars P s && all_chars P t.
Proof.
  induction s as [|c s IH]; simpl; [reflexivity|].
  now rewrite IH, andb_assoc.
Qed.

Lemma space_not_char a c :
  all_chars is_space a = true -> is_space c = false -> contains_char c a = false.
Proof.
  intros Ha Hc. induction a as [|d a IH]; simpl in *; [reflexivity|].
  apply andb_true_iff in Ha as [Hd Ha]. rewrite (IH Ha), orb_false_r.
  destruct (Ascii.eqb_spec d c); [congruence|reflexivity].
Qed.

Lemma lstrip_spaces a : all_chars is_space a = true -> lstrip a = ""%string.
Proof.
  induction a as [|d a IH]; simpl; [reflexivity|].
  intros [-> Ha]%andb_true_iff. auto.
Qed.

Lemma rstrip_spaces b : all_chars is_space b = true -> rstrip b = ""%string.
Proof.
  induction b as [|d b IH]; simpl; [reflexivity|].
  intros [Hd Hb]%andb_true_iff. now rewrite (IH Hb), Hd.
Qed.

Lemma lstrip_spaces_app a x :
  all_chars is_space a = true -> lstrip (a ++ x) = lstrip x.
Proof.
  induction a as [|d a IH]; simpl; [reflexivity|].
  intros [-> Ha]%andb_true_iff. auto.
Qed.

Lemma rstrip_app_spaces x b :
  all_chars is_space b = true -> rstrip (x ++ b) = rstrip x.
Proof.
  intros Hb. induction x as [|c x IH]; simpl; [now apply rstrip_spaces|].
  now rewrite IH.
Qed.

Lemma lstrip_app_spaces x b :
  all_chars is_space b = true ->
  lstrip (x ++ b) = if all_chars is_space x then ""%string else (lstrip x ++ b)%string.
Proof.
  intros Hb. induction x as [|c x IH]; simpl; [now apply lstrip_spaces|].
  destruct (is_space c); simpl; [exact IH|reflexivity].
Qed.

Lemma strip_between_spaces a x b :
  all_chars is_space a = true -> all_chars is_space b = true ->
  strip (a ++ x ++ b) = strip x.
Proof.
  intros Ha Hb. unfold strip.
  rewrite (lstrip_spaces_app a _ Ha), (lstrip_app_spaces x b Hb).
  destruct (all_chars is_space x) eqn:Ex.
  - now rewrite (lstrip_spaces x Ex).
  - now apply rstrip_app_spaces.
Qed.

Lemma contains_remove_other c d s :
  c <> d -> contains_char c (remove_char d s) = contains_char c s.
Proof.
  intros Hne. induction s as [|e s IH]; simpl; [reflexivity|].
  destruct (Ascii.eqb_spec e d) as [->|_]; simpl; rewrite IH; [|reflexivity].
  destruct (Ascii.eqb_spec d c); [congruence|reflexivity].
Qed.

(** The result is a function of the cleaned text. *)
Lemma clean_currency_value_cleaned s s' :
  cleaned s = cleaned s' ->
  clean_currency_value (PyStr s) = clean_currency_value (PyStr s').
Proof.
  intros E. rewrite !clean_currency_value_unfold. unfold numeric_remainder.
  now rewrite E.
Qed.

(** X1. A comma or a dollar sign changes nothing, wherever it stands in
    the text. *)
Theorem separators_are_ignored (s1 s2 : string) :
  clean_currency_value (PyStr (s1 ++ "," ++ s2))
  = clean_currency_value (PyStr (s1 ++ s2))
  /\ clean_currency_value (PyStr (s1 ++ "$" ++ s2))
     = clean_currency_value (PyStr (s1 ++ s2)).
Proof.
  split; apply clean_currency_value_cleaned; unfold cleaned;
    now rewrite !remove_char_app.
Qed.

(** X2. Blanks before and after the text change nothing. *)
Theorem blanks_around_are_ignored (a s b : string) :
  all_chars is_space a = true -> all_chars is_space b = true ->
  clean_currency_value (PyStr (a ++ s ++ b)) = clean_currency_value (PyStr s).
Proof.
  intros Ha Hb. apply clean_currency_value_cleaned. unfold cleaned.
  rewrite !remove_char_app.
  rewrite (remove_char_absent "$" a), (remove_char_absent "$" b)
    by now apply space_not_char.
  rewrite (remove_char_absent "," a), (remove_char_absent "," b)
    by now apply space_not_char.
  now apply strip_between_spaces.
Qed.

Lemma blanks_around_are_ignored_witness :
  clean_currency_value (PyStr ("  " ++ "$1.5B" ++ " "))
  = Ret (PyFloat (FNum 15000 (-1))).
Proof.
  rewrite (blanks_around_are_ignored "  " "$1.5B" " " eq_refl eq_refl).
  reflexivity.
Defined.

(** X3. The units are the capitals "B" and "M" and no other character: a
    number followed by any other character that is not part of a number
    (a lower-case "b" or "m", "K", "T", "%", ...) gives [None]. *)
Theorem other_units_give_none (n : string) (f : pyfloat) (u : ascii) :
  float_of_string n = Ret f ->
  numeric_char u = false ->
  u <> "B"%char -> u <> "M"%char -> u <> "$"%char -> u <> ","%char ->
  clean_currency_value (PyStr (n ++ String u "")) = Ret PyNone.
Proof.
  intros Hf Hu HB HM HD HC.
  pose proof (float_of_string_chars n f Hf) as Hn.
  assert (Hsp : is_space u = false).
  { destruct (is_space u) eqn:E; [|reflexivity].
    now rewrite (numeric_char_space u E) in Hu. }
  assert (Ed : Ascii.eqb u "$" = false) by now apply Ascii.eqb_neq.
  assert (Ec : Ascii.eqb u "," = false) by now apply Ascii.eqb_neq.
  rewrite clean_currency_value_unfold. unfold numeric_remainder.
  rewrite (cleaned_numeric_suffix n u Hn Hsp Ed Ec). cbv zeta.
  destruct (_ || _); [reflexivity|].
  assert (Hl : all_chars numeric_char (lstrip n) = true)
    by now apply all_chars_lstrip.
  rewrite !contains_char_app. simpl.
  rewrite (all_chars_contains numeric_char "B" (lstrip n)) by easy.
  rewrite (all_chars_contains numeric_char "M" (lstrip n)) by easy.
  replace (Ascii.eqb u "B") with false by (symmetry; now apply Ascii.eqb_neq).
  replace (Ascii.eqb u "M") with false by (symmetry; now apply Ascii.eqb_neq).
  simpl.
  destruct (float_of_string_cases (lstrip n ++ String u "")) as [[g Eg]|Eg];
    rewrite Eg; [|reflexivity].
  apply float_of_string_chars in Eg. rewrite all_chars_app in Eg. simpl in Eg.
  rewrite Hu, andb_false_r in Eg. discriminate.
Qed.

Lemma other_units_give_none_witness :
  clean_currency_value (PyStr "1.5b") = Ret PyNone
  /\ clean_currency_value (PyStr "200K") = Ret PyNone.
Proof.
  split.
  - apply (other_units_give_none "1.5" (FNum 15 (-1)) "b"); try reflexivity;
      discriminate.
  - apply (other_units_give_none "200" (FNum 200 0) "K"); try reflexivity;
      discriminate.
Defined.

(** X4. A text with both a "B" and an "M" gives [None]: the "B" branch is
    taken, it takes out the "B"s only, and the "M" left makes [float]
    refuse. *)
Theorem both_units_give_none (s : string) :
  contains_char "B" (cleaned s) = true ->
  contains_char "M" (cleaned s) = true ->
  clean_currency_value (PyStr s) = Ret PyNone.
Proof.
  intros HB HM. rewrite clean_currency_value_unfold. unfold numeric_remainder.
  cbv zeta. destruct (_ || _); [reflexivity|]. rewrite HB.
  destruct (float_of_string_cases (remove_char "B" (cleaned s))) as [[g Eg]|Eg];
    rewrite Eg; [|reflexivity].
  apply float_of_string_chars in Eg.
  apply (all_chars_contains numeric_char "M") in Eg; [|reflexivity].
  rewrite contains_remove_other in Eg by discriminate. congruence.
Qed.

Lemma both_units_give_none_witness :
  clean_currency_value (PyStr "$5MB") = Ret PyNone.
Proof. apply both_units_give_none; reflexivity. Defined.

(** ** The columns *)

Lemma column_keys_NoDup : NoDup column_mapping.*1.
Proof. compute_done. Qed.

(** No two source names share a target name. *)
Lemma column_targets_inj k k' t :
  (k, t) ∈ column_mapping -> (k', t) ∈ column_mapping -> k = k'.
Proof.
  assert (Hinj : Forall (fun p => Forall (fun q => p.2 = q.2 -> p.1 = q.1)
                                    column_mapping) column_mapping).
  { compute_done. }
  intros Hk Hk'. rewrite Forall_forall in Hinj.
  specialize (Hinj _ Hk). rewrite Forall_forall in Hinj.
  exact (Hinj _ Hk' eq_refl).
Qed.

Lemma column_dict_lookup k t :
  column_dict !! k = Some t <-> (k, t) ∈ column_mapping.
Proof.
  unfold column_dict. symmetry. apply elem_of_list_to_map, column_keys_NoDup.
Qed.

(** No target name is a source name. *)
Lemma target_not_key k t : (k, t) ∈ column_mapping -> column_dict !! t = None.
Proof.
  revert k t.
  assert (Hall : Forall (fun p => column_dict !! p.2 = None) column_mapping).
  { compute_done. }
  intros k t Hin. rewrite Forall_forall in Hall. exact (Hall (k, t) Hin).
Qed.

Lemma elem_of_rename columns t :
  t ∈ rename columns <->
  (t ∈ columns /\ column_dict !! t = None)
  \/ exists k, k ∈ columns /\ column_dict !! k = Some t.
Proof.
  unfold rename. rewrite elem_of_map. split.
  - intros (c & -> & Hc). destruct (column_dict !! c) as [t|] eqn:E; simpl.
    + right. now exists c.
    + left. now split.
  - intros [[Ht E] | (k & Hk & E)].
    + exists t. now rewrite E.
    + exists k. now rewrite E.
Qed.

(** X5. A target column is selected exactly when the input has a column
    under its source name or already under the target name; the
    selection lists such columns once each, in the order of the mapping,
    whatever the order of the input columns. A column under any other
    name (the correctly spelled "Select Investors", say) is left out. *)
Theorem selected_columns_spec (columns : list string) :
  (forall t, t ∈ selected_columns columns <->
             exists k, (k, t) ∈ column_mapping /\ (k ∈ columns \/ t ∈ columns))
  /\ selected_columns columns `sublist_of` map snd column_mapping
  /\ (forall columns', columns ≡ₚ columns' ->
        selected_columns columns' = selected_columns columns).
Proof.
  split; [|split].
  - intros t. unfold selected_columns.
    rewrite list_elem_of_filter, elem_of_rename, elem_of_map. split.
    + intros [Hr ([k t'] & -> & Hin)]. exists k. split; [exact Hin|].
      destruct Hr as [[Ht _] | (k' & Hk' & E)]; [now right|left].
      apply column_dict_lookup in E.
      now rewrite (column_targets_inj k k' t' Hin E).
    + intros (k & Hin & Hc). split.
      * destruct Hc as [Hk|Ht].
        -- right. exists k. split; [exact Hk|now apply column_dict_lookup].
        -- left. split; [exact Ht|]. eapply target_not_key, Hin.
      * exists (k, t). now split.
  - apply sublist_filter.
  - intros columns' Hp. unfold selected_columns. apply list_filter_iff.
    intros t. unfold rename.
    change (map ?f columns) with (f <$> columns).
    change (map ?f columns') with (f <$> columns').
    now rewrite Hp.
Qed.

Lemma selected_columns_spec_witness :
  selected_columns ["City"; "Company"; "Select Investors"; "country"]%string
  = ["company_name"; "country"; "city"]%string
  /\ selected_columns ["country"; "Select Investors"; "Company"; "City"]%string
     = selected_columns ["City"; "Company"; "Select Investors"; "country"]%string.
Proof.
  split; [vm_compute; reflexivity|].
  apply (selected_columns_spec
           ["City"; "Company"; "Select Investors"; "country"]%string).
  compute_done.
Defined.

(** ** Shaping *)

(** X6. What the shaping leaves in a currency column is never the NaN
    sentinel and never the empty text, whatever the cell held; for a text
    it is [None] or a float, the text "nan" giving [None]. The step does
    not raise. *)
Theorem shape_currency_no_sentinel (v : pyval) :
  exists r, shape_currency v = Ret r
    /\ r <> PyFloat FNan /\ r <> PyStr ""
    /\ (forall s, v = PyStr s -> r = PyNone \/ exists f, r = PyFloat f).
Proof.
  unfold shape_currency.
  destruct (clean_currency_value_cases v) as (x & -> & Hx). simpl.
  exists (replace_missing x). split; [reflexivity|].
  destruct v as [| b | z | f | s].
  - subst x. repeat split; discriminate.
  - subst x. repeat split; discriminate.
  - subst x. repeat split; discriminate.
  - subst x. destruct f; repeat split; discriminate.
  - destruct Hx as [[-> | (f & ->)] _].
    + repeat split; try discriminate. intros _ _. now left.
    + destruct f; repeat split; try discriminate; intros _ _;
        solve [now left | right; eauto].
Qed.

Lemma shape_currency_no_sentinel_witness :
  shape_currency (PyStr "NaN") = Ret PyNone.
Proof.
  destruct (shape_currency_no_sentinel (PyStr "NaN")) as (r & E & Hn & _ & Hs).
  rewrite E. f_equal.
  destruct (Hs "NaN"%string eq_refl) as [->|(f & ->)]; [reflexivity|].
  vm_compute in E. congruence.
Defined.

Section ShapingMore.
Context `{PandasParsers}.



End ShapingMore.

(** ** The date step, beyond idempotence *)

Lemma dict_update_Some m rows d k :
  dict_update m rows !! d = Some k -> m !! d = Some k \/ (d, k) ∈ rows.
Proof.
  revert m. induction rows as [|[d' k'] rows IH]; intros m; simpl; [now left|].
  intros [E|Hin]%IH; [|right; now right].
  destruct (decide (d' = d)) as [->|Hne].
  - rewrite lookup_insert_eq in E. injection E as ->. right. left.
  - rewrite lookup_insert_ne in E by assumption. now left.
Qed.

Lemma date_pairs_elem rows d k :
  (d, k) ∈ date_pairs rows ->
  exists r, r ∈ rows /\ full_date (date_cols r) = d /\ date_key r = k.
Proof.
  unfold date_pairs. intros (r & [= -> ->] & Hr)%elem_of_map. now exists r.
Qed.

Section DateMore.
Context `{StorageConstraints}.

Lemma reconcile_dates_sound (ds : list date) c m c1 :
  reconcile_dates ds c = (Ret m, c1) ->
  (forall d, d ∈ ds -> is_Some (m !! d))
  /\ (forall d k, m !! d = Some k ->
        exists r, r ∈ dim_date (current c1)
                  /\ full_date (date_cols r) = d /\ date_key r = k)
  /\ (current c = committed c -> committed c1 = current c1).
Proof.
  intros H1. pose proof (reconcile_dates_map _ _ _ _ H1) as (Hm & Hnew & Hcom).
  split; [|split].
  - intros d Hd. destruct (m !! d) as [k|] eqn:E; [now exists k|].
    exfalso. rewrite Hm in E.
    assert (Hin : make_date_attrs d ∈ new_dates (current c1) ds).
    { apply new_dates_elem. split; [now apply existing_None|now exists d]. }
    rewrite Hnew in Hin. now apply elem_of_nil in Hin.
  - intros d k E. rewrite Hm in E.
    apply dict_update_Some in E as [E|Hin]; [now rewrite lookup_empty in E|].
    now apply date_pairs_elem.
  - intros Hc. revert H1 Hcom. rewrite reconcile_dates_eq. cbv zeta.
    destruct (new_dates (current c) ds); [|now intros _ ->].
    intros [= _ <-] ->. simpl. now symmetry.
Qed.


(** X8. When the date step returns, its mapping has a key for every date
    it was given, and every key in it is the key of a dim_date row with
    that [full_date]; on a connection with nothing pending that row is
    committed. *)
Theorem date_keys_cover (ds : list date) c m c1 :
  reconcile_dates ds c = (Ret m, c1) ->
  (forall d, d ∈ ds -> is_Some (m !! d))
  /\ (forall d k, m !! d = Some k ->
        exists r, r ∈ dim_date (current c1)
                  /\ full_date (date_cols r) = d /\ date_key r = k)
  /\ (current c = committed c -> committed c1 = current c1).
Proof. apply reconcile_dates_sound. Qed.

(** X9. The date step only appends to dim_date and touches no other
    table. When it returns, the dates added are the given dates not yet
    stored, in order; when the insert is refused, the tables are as they
    were. *)
Theorem date_step_only_appends (ds : list date) (c : connection) :
  let r := reconcile_dates ds c in
  dim_date (current c) `prefix_of` dim_date (current r.2)
  /\ dim_company (current r.2) = dim_company (current c)
  /\ fact_unicorn_snapshot (current r.2) = fact_unicorn_snapshot (current c)
  /\ (forall m, r.1 = Ret m ->
        stored_dates (current r.2)
        = stored_dates (current c)
          ++ filter (fun d => d ∉ stored_dates (current c)) ds)
  /\ (forall e, r.1 = Raise e ->
        current r.2 = current c /\ committed r.2 = committed c).
Proof.
  cbv zeta. rewrite reconcile_dates_eq. cbv zeta.
  pose proof (new_dates_dates (current c) ds) as Hd.
  destruct (new_dates (current c) ds) as [|a new] eqn:E.
  - simpl. split; [reflexivity|]. split; [reflexivity|]. split; [reflexivity|].
    split; [|discriminate].
    intros m _. simpl in Hd. now rewrite <- Hd, app_nil_r.
  - destruct (existsb _ _).
    + simpl. split; [reflexivity|]. split; [reflexivity|]. split; [reflexivity|].
      split; [discriminate|]. intros e _. now split.
    + cbn [fst snd current].
      split; [now eexists|]. split; [reflexivity|]. split; [reflexivity|].
      split; [|discriminate].
      intros m _. rewrite <- Hd, stored_dates_append. f_equal.
      apply number_dates_dates.
Qed.

End DateMore.

(** On tables without dates the sample schema refuses no date row. *)
Lemma sample_dates_accepted rows :
  existsb (@dim_date_rejects sample_schema (current fresh_connection)) rows = false.
Proof. induction rows as [|a rows IH]; [reflexivity|exact IH]. Qed.

Lemma date_keys_cover_witness :
  match (@reconcile_dates sample_schema [sample_day] fresh_connection).1 with
  | Ret m => is_Some (m !! sample_day)
  | Raise _ => False
  end.
Proof.
  destruct (@reconcile_dates sample_schema [sample_day] fresh_connection)
    as [[m|e] c1] eqn:E; cbn [fst].
  - destruct (@date_keys_cover sample_schema _ _ _ _ E) as (Hall & _).
    apply Hall. left.
  - rewrite reconcile_dates_eq in E. cbv zeta in E.
    rewrite sample_dates_accepted in E.
    destruct (new_dates _ _); discriminate E.
Defined.

Lemma date_step_only_appends_witness :
  stored_dates
    (current (@reconcile_dates sample_schema [sample_day] fresh_connection).2)
  = [sample_day].
Proof.
  pose proof (@date_step_only_appends sample_schema [sample_day] fresh_connection)
    as (_ & _ & _ & Hret & _).
  destruct (@reconcile_dates sample_schema [sample_day] fresh_connection)
    as [[m|e] c1] eqn:E; cbn [fst snd] in *.
  - rewrite (Hret m eq_refl). reflexivity.
  - rewrite reconcile_dates_eq in E. cbv zeta in E.
    rewrite sample_dates_accepted in E.
    destruct (new_dates _ _); discriminate E.
Defined.

(** ** The company loop, step by step *)

Section CompanySteps.
Context `{StorageConstraints}.

(** One turn of the company loop is one [company_step]. *)
Lemma reconcile_company_refines row df i u c :
  current c = committed c ->
  exists t' df' i' u' c',
    reconcile_company row (df, i, u) c = (Ret (df', i', u'), c')
    /\ current c' = t' /\ committed c' = t'
    /\ company_step row (current c) df i u t' df' i' u'.
Proof.
  intros Hc. rewrite reconcile_company_eq. cbv zeta.
  unfold select_company_key, update_company, insert_company.
  cbn [fst snd current log]. fold (rows_named (company_name row) (current c)).
  destruct (head (rows_named (company_name row) (current c))) as [old|] eqn:Eh;
    cbn [fmap option_fmap option_map];
    destruct (dim_company_rejects (current c) (insert_update_data row)) eqn:Er.
  - eexists _, _, _, _, _. split; [reflexivity|]. simpl.
    rewrite <- Hc. split; [reflexivity|]. split; [reflexivity|].
    now apply company_refused.
  - eexists _, _, _, _, _. split; [reflexivity|]. simpl.
    split; [reflexivity|]. split; [reflexivity|].
    now apply company_updated.
  - eexists _, _, _, _, _. split; [reflexivity|]. simpl.
    rewrite <- Hc. split; [reflexivity|]. split; [reflexivity|].
    now apply company_refused.
  - eexists _, _, _, _, _. split; [reflexivity|]. simpl.
    split; [reflexivity|]. split; [reflexivity|].
    now apply company_inserted.
Qed.

Lemma reconcile_companies_loop_refines rows :
  forall df i u c,
  current c = committed c ->
  exists t' df' i' u' c',
    reconcile_companies_loop rows (df, i, u) c = (Ret (df', i', u'), c')
    /\ current c' = t' /\ committed c' = t'
    /\ company_steps rows (current c) df i u t' df' i' u'.
Proof.
  induction rows as [|row rows IH]; intros df i u c Hc.
  - exists (current c), df, i, u, c. repeat split; auto. constructor.
  - cbn [reconcile_companies_loop]. unfold mbind.
    destruct (reconcile_company_refines row df i u c Hc)
      as (t1 & df1 & i1 & u1 & c1 & -> & Hcur & Hcom & Hstep).
    destruct (IH df1 i1 u1 c1) as (t' & df' & i' & u' & c' & -> & Hcur' & Hcom' & Hsteps);
      [congruence|].
    exists t', df', i', u', c'. repeat split; auto.
    rewrite Hcur in Hsteps. econstructor; [exact Hstep|exact Hsteps].
Qed.

Lemma reconcile_companies_refines df c :
  current c = committed c ->
  exists t' df' i' u' c',
    reconcile_companies df c = (Ret (df', i', u'), c')
    /\ current c' = t' /\ committed c' = t'
    /\ company_steps (drop_duplicates company_name (map rec df))
         (current c) df 0 0 t' df' i' u'.
Proof.
  intros Hc. unfold reconcile_companies, mbind.
  destruct (reconcile_companies_loop_refines
              (drop_duplicates company_name (map rec df)) df 0 0 c Hc)
    as (t' & df' & i' & u' & c' & -> & Hcur & Hcom & Hsteps).
  eexists t', df', i', u', _. split; [reflexivity|]. simpl.
  repeat split; auto.
Qed.

End CompanySteps.

Lemma updated_rows_key_name a rows :
  map key_name (updated_rows a rows) = map key_name rows.
Proof.
  unfold updated_rows. induction rows as [|r rows IH]; simpl; [reflexivity|].
  rewrite IH. f_equal.
  now destruct (sql_eq (ca_company_name (company_cols r)) (ca_company_name a)).
Qed.

Lemma stored_names_key_name t :
  stored_names t = omap snd (map key_name (dim_company t)).
Proof.
  unfold stored_names. induction (dim_company t) as [|r rows IH]; [reflexivity|].
  cbn. rewrite IH. reflexivity.
Qed.

Lemma rows_named_nil name t n :
  rows_named name t = [] -> name = Some n -> n ∉ stored_names t.
Proof.
  unfold rows_named, stored_names. intros Hf -> Hin.
  apply list_elem_of_omap in Hin as (r & Hr & En).
  eapply (filter_nil_not_elem_of _ _ r Hf); [|exact Hr].
  simpl. rewrite En. simpl. apply String.eqb_refl.
Qed.

Lemma sql_eq_Some a b : sql_eq a b = true -> a = b /\ a <> None.
Proof.
  destruct a as [x|], b as [y|]; simpl; try discriminate.
  intros ->%String.eqb_eq. now split.
Qed.

Lemma sql_eq_refl_Some a : a <> None -> sql_eq a a = true.
Proof. destruct a as [x|]; [intros _; apply String.eqb_refl|congruence]. Qed.

Lemma set_company_key_elem name v df r' :
  r' ∈ set_company_key name v df ->
  exists r, r ∈ df /\ rec r' = rec r /\ load_date_key r' = load_date_key r
            /\ company_key_cell r'
               = if sql_eq (company_name (rec r)) name then v
                 else company_key_cell r.
Proof.
  intros (r & -> & Hr)%elem_of_map. exists r. split; [exact Hr|].
  now destruct (sql_eq (company_name (rec r)) name).
Qed.

Lemma set_company_key_rec name v df :
  map rec (set_company_key name v df) = map rec df
  /\ map load_date_key (set_company_key name v df) = map load_date_key df.
Proof.
  unfold set_company_key. rewrite !map_map. split; apply map_ext; intros r;
    now destruct (sql_eq (company_name (rec r)) name).
Qed.

Section CompanyInvariants.
Context `{StorageConstraints}.

Lemma company_step_facts row t df i u t' df' i' u' :
  company_step row t df i u t' df' i' u' ->
  dim_date t' = dim_date t
  /\ fact_unicorn_snapshot t' = fact_unicorn_snapshot t
  /\ map key_name (dim_company t) `prefix_of` map key_name (dim_company t')
  /\ (NoDup (stored_names t) -> NoDup (stored_names t'))
  /\ Z.of_nat (length (dim_company t'))
     = Z.of_nat (length (dim_company t)) + (i' - i)
  /\ i <= i' /\ u <= u' /\ (i' - i) + (u' - u) <= 1
  /\ map rec df' = map rec df
  /\ map load_date_key df' = map load_date_key df.
Proof.
  intros Hstep.
  destruct Hstep as [t df i u Hr | t df i u old Hr Hh | t df i u k Hr Hh];
    destruct (set_company_key_rec (company_name row) None df) as [Hrec Hld];
    cbn [dim_date dim_company fact_unicorn_snapshot with_dim_company].
  - repeat split; auto; try lia.
  - destruct (set_company_key_rec (company_name row) (Some (company_key old)) df).
    split; [reflexivity|]. split; [reflexivity|].
    split; [now rewrite updated_rows_key_name|].
    split.
    { rewrite !stored_names_key_name. cbn [dim_company with_dim_company].
      now rewrite updated_rows_key_name. }
    unfold updated_rows. rewrite length_map. repeat split; auto; lia.
  - destruct (set_company_key_rec (company_name row) (Some k) df).
    split; [reflexivity|]. split; [reflexivity|].
    split; [rewrite map_app; now eexists|].
    split.
    { intros Hnd. unfold stored_names. cbn [dim_company with_dim_company].
      rewrite omap_app. simpl.
      destruct (company_name row) as [n|] eqn:En; simpl;
        [|now rewrite app_nil_r].
      apply NoDup_app. split; [exact Hnd|]. split; [|apply NoDup_singleton].
      intros x Hx ->%list_elem_of_singleton.
      apply head_None in Hh. now apply (rows_named_nil _ _ n Hh eq_refl). }
    rewrite length_app. simpl. repeat split; auto; lia.
Qed.

Lemma company_steps_facts rows t df i u t' df' i' u' :
  company_steps rows t df i u t' df' i' u' ->
  dim_date t' = dim_date t
  /\ fact_unicorn_snapshot t' = fact_unicorn_snapshot t
  /\ map key_name (dim_company t) `prefix_of` map key_name (dim_company t')
  /\ (NoDup (stored_names t) -> NoDup (stored_names t'))
  /\ Z.of_nat (length (dim_company t'))
     = Z.of_nat (length (dim_company t)) + (i' - i)
  /\ i <= i' /\ u <= u' /\ (i' - i) + (u' - u) <= Z.of_nat (length rows)
  /\ map rec df' = map rec df
  /\ map load_date_key df' = map load_date_key df.
Proof.
  induction 1 as [t df i u
                 |row rows t df i u t1 df1 i1 u1 t2 df2 i2 u2 Hstep _ IH].
  - repeat split; auto; simpl; lia.
  - apply company_step_facts in Hstep
      as (Hd & Hf & Hp & Hn & Hl & Hi & Hu & Hc & Hr & Hk).
    destruct IH as (Hd' & Hf' & Hp' & Hn' & Hl' & Hi' & Hu' & Hc' & Hr' & Hk').
    split; [congruence|]. split; [congruence|].
    split; [now transitivity (map key_name (dim_company t1))|].
    split; [auto|].
    change (length (row :: rows)) with (S (length rows)).
    split; [lia|]. split; [lia|]. split; [lia|]. split; [lia|].
    split; congruence.
Qed.

End CompanyInvariants.

Lemma set_attrs_same_name a old :
  ca_company_name old = ca_company_name a -> set_attrs a old = a.
Proof. destruct a, old. unfold set_attrs. simpl. now intros ->. Qed.

Section CompanyCells.
Context `{StorageConstraints}.

Lemma company_step_cells row done t df i u t' df' i' u' :
  company_step row t df i u t' df' i' u' ->
  company_name row ∉ map company_name done ->
  cells_sound done t df -> cells_sound (done ++ [row]) t' df'.
Proof.
  intros Hstep Hfresh J r' rd k Hr' Hrd Heq Hcell.
  assert (Hold : rd ∈ done ->
            forall r, r ∈ df -> rec r' = rec r ->
            company_key_cell r'
            = (if sql_eq (company_name (rec r)) (company_name row)
               then company_key_cell r' else company_key_cell r) ->
            exists row0, row0 ∈ dim_company t /\ company_key row0 = k
                         /\ company_cols row0 = insert_update_data rd
                         /\ sql_eq (company_name rd) (company_name row) = false).
  { intros Hd r Hr Erec Ecell. rewrite Erec in Heq.
    assert (Hne : sql_eq (company_name rd) (company_name row) = false).
    { destruct (sql_eq (company_name rd) (company_name row)) eqn:E; [|reflexivity].
      destruct Hfresh. apply sql_eq_Some in E as [<- _].
      apply elem_of_map. now exists rd. }
    destruct (sql_eq (company_name (rec r)) (company_name row)) eqn:E.
    - apply sql_eq_Some in E as [E _]. apply sql_eq_Some in Heq as [Heq Hn].
      rewrite <- Heq, E in Hne. rewrite sql_eq_refl_Some in Hne; [discriminate|].
      now rewrite <- E.
    - rewrite Ecell in Hcell.
      destruct (J r rd k Hr Hd Heq Hcell) as (row0 & H0 & Hk & Hc).
      now exists row0. }
  apply elem_of_app in Hrd as [Hd | ->%list_elem_of_singleton].
  - destruct Hstep as [t df i u Hr | t df i u old Hr Hh | t df i u k0 Hr Hh];
      apply set_company_key_elem in Hr' as (r & Hin & Erec & _ & Ecell);
      destruct (Hold Hd r Hin Erec) as (row0 & H0 & Hk & Hc & Hne);
      try (rewrite Ecell; now destruct (sql_eq _ _)).
    + now exists row0.
    + exists row0. split; [|now split].
      cbn [dim_company with_dim_company]. unfold updated_rows.
      apply elem_of_map. exists row0. split; [|exact H0].
      rewrite Hc. cbn [ca_company_name insert_update_data]. now rewrite Hne.
    + exists row0. split; [|now split].
      cbn [dim_company with_dim_company]. apply elem_of_app. now left.
  - destruct Hstep as [t df i u Hr | t df i u old Hr Hh | t df i u k0 Hr Hh];
      apply set_company_key_elem in Hr' as (r & Hin & Erec & _ & Ecell);
      rewrite Erec in Heq; rewrite Heq in Ecell; rewrite Ecell in Hcell.
    + discriminate.
    + injection Hcell as <-.
      apply head_Some_elem_of in Hh. unfold rows_named in Hh.
      apply list_elem_of_filter in Hh as [Hname Hold0].
      exists {| company_key := company_key old;
                company_cols := set_attrs (insert_update_data row) (company_cols old) |}.
      split; [|split; [reflexivity|]].
      * cbn [dim_company with_dim_company]. unfold updated_rows.
        apply elem_of_map. exists old. split; [|exact Hold0].
        cbn [ca_company_name insert_update_data]. now rewrite Hname.
      * cbn [company_cols]. apply set_attrs_same_name.
        now apply sql_eq_Some in Hname as [-> _].
    + injection Hcell as <-.
      exists {| company_key := k0; company_cols := insert_update_data row |}.
      split; [|split; reflexivity].
      cbn [dim_company with_dim_company]. apply elem_of_app. right. left.
Qed.

Lemma company_steps_cells rows t df i u t' df' i' u' :
  company_steps rows t df i u t' df' i' u' ->
  forall done,
    NoDup (map company_name (done ++ rows)) ->
    cells_sound done t df -> cells_sound (done ++ rows) t' df'.
Proof.
  induction 1 as [t df i u
                 |row rows t df i u t1 df1 i1 u1 t2 df2 i2 u2 Hstep _ IH];
    intros done Hnd J.
  - now rewrite app_nil_r.
  - replace (done ++ row :: rows) with ((done ++ [row]) ++ rows) in *
      by now rewrite <- app_assoc.
    apply IH; [exact Hnd|].
    eapply company_step_cells; [exact Hstep| |exact J].
    rewrite !map_app in Hnd. apply NoDup_app in Hnd as (Hnd & _ & _).
    apply NoDup_app in Hnd as (_ & Hdis & _).
    intros Hin. apply (Hdis _ Hin). left.
Qed.

(** X10. On a connection with nothing pending the company step keeps
    its books: the two counters together never exceed the number of
    distinct companies, dim_company grows by exactly the number counted
    as inserted, the other two tables are untouched, and nothing is left
    pending. *)
Theorem company_step_accounting (df : list df_row) (c : connection) :
  current c = committed c ->
  exists df' ins upd c',
    reconcile_companies df c = (Ret (df', ins, upd), c')
    /\ 0 <= ins /\ 0 <= upd
    /\ ins + upd
       <= Z.of_nat (length (drop_duplicates company_name (map rec df)))
    /\ Z.of_nat (length (dim_company (committed c')))
       = Z.of_nat (length (dim_company (committed c))) + ins
    /\ dim_date (committed c') = dim_date (committed c)
    /\ fact_unicorn_snapshot (committed c') = fact_unicorn_snapshot (committed c)
    /\ current c' = committed c'.
Proof.
  intros Hc.
  destruct (reconcile_companies_refines df c Hc)
    as (t' & df' & i' & u' & c' & E & Hcur & Hcom & Hsteps).
  apply company_steps_facts in Hsteps
    as (Hd & Hf & _ & _ & Hl & Hi & Hu & Hn & _ & _).
  exists df', i', u', c'. rewrite Hcom, <- Hc.
  repeat split; auto; try lia; congruence.
Qed.

(** X11. The company step never changes the surrogate key or the name
    of a row that is there, and never removes one: the rows of dim_company
    keep their keys and names in place and new rows come after them. If no
    two rows bore the same name before, none do after. *)
Theorem company_keys_stable (df : list df_row) (c : connection) :
  current c = committed c ->
  map key_name (dim_company (committed c))
    `prefix_of` map key_name (dim_company (committed (reconcile_companies df c).2))
  /\ (NoDup (stored_names (committed c)) ->
      NoDup (stored_names (committed (reconcile_companies df c).2))).
Proof.
  intros Hc.
  destruct (reconcile_companies_refines df c Hc)
    as (t' & df' & i' & u' & c' & E & Hcur & Hcom & Hsteps).
  apply company_steps_facts in Hsteps as (_ & _ & Hp & Hn & _).
  rewrite E. cbn [snd]. rewrite Hcom, <- Hc. now split.
Qed.

(** X12. On a connection with nothing pending, every company key the
    step writes into the data frame is the key of a committed dim_company
    row, and that row carries the attributes of the first row of the batch
    with that company name. *)
Theorem company_keys_refer (df : list df_row) (c : connection) :
  current c = committed c ->
  exists df' ins upd c',
    reconcile_companies df c = (Ret (df', ins, upd), c')
    /\ map rec df' = map rec df
    /\ forall r' k,
         r' ∈ df' -> company_name (rec r') <> None ->
         company_key_cell r' = Some k ->
         exists rd row,
           rd ∈ drop_duplicates company_name (map rec df)
           /\ company_name rd = company_name (rec r')
           /\ row ∈ dim_company (committed c')
           /\ company_key row = k
           /\ company_cols row = insert_update_data rd.
Proof.
  intros Hc.
  destruct (reconcile_companies_refines df c Hc)
    as (t' & df' & i' & u' & c' & E & Hcur & Hcom & Hsteps).
  pose proof (company_steps_facts _ _ _ _ _ _ _ _ _ Hsteps)
    as (_ & _ & _ & _ & _ & _ & _ & _ & Hrec & _).
  exists df', i', u', c'. split; [exact E|]. split; [exact Hrec|].
  intros r' k Hr' Hname Hcell.
  assert (J : cells_sound (drop_duplicates company_name (map rec df)) t' df').
  { apply (company_steps_cells _ _ _ _ _ _ _ _ _ Hsteps []).
    - apply dim_company_df_NoDup.
    - intros r rd k0 _ Hrd. now apply elem_of_nil in Hrd. }
  assert (Hin : rec r' ∈ map rec df).
  { rewrite <- Hrec. apply elem_of_map. now exists r'. }
  destruct (drop_duplicates_from_covers company_name [] _ _ Hin) as [Hs|Hcov];
    [now apply elem_of_nil in Hs|].
  apply elem_of_map in Hcov as (rd & Ename & Hrd).
  destruct (J r' rd k Hr' Hrd) as (row & Hrow & Hk & Hcols);
    [rewrite Ename; now apply sql_eq_refl_Some; rewrite <- Ename|exact Hcell|].
  exists rd, row. rewrite Hcom. repeat split; auto.
Qed.

End CompanyCells.

(** ** The fact loop, step by step *)

Lemma same_fact_key_iff v w : same_fact_key v w = true <-> fact_key v = fact_key w.
Proof.
  unfold same_fact_key, fact_key. rewrite andb_true_iff, !Z.eqb_eq. split.
  - intros [-> ->]. reflexivity.
  - intros [= -> ->]. now split.
Qed.

Lemma same_fact_key_false v w : same_fact_key v w = false <-> fact_key v <> fact_key w.
Proof.
  rewrite <- same_fact_key_iff. now destruct (same_fact_key v w).
Qed.

Lemma existsb_same_key v rows :
  existsb (same_fact_key v) rows = true <-> fact_key v ∈ map fact_key rows.
Proof.
  rewrite existsb_exists, elem_of_map. split.
  - intros (w & Hin & E%same_fact_key_iff). exists w. split; [exact E|].
    now apply list_elem_of_In.
  - intros (w & E & Hin). exists w. split; [now apply list_elem_of_In|].
    now apply same_fact_key_iff.
Qed.


Lemma upserted_rows_elem v rows : v ∈ upserted_rows v rows.
Proof.
  unfold upserted_rows. destruct (existsb (same_fact_key v) rows) eqn:E.
  - apply existsb_exists in E as (w & Hin%list_elem_of_In & Ew).
    apply elem_of_map. exists w. now rewrite Ew.
  - apply elem_of_app. right. left.
Qed.

(** The rows under other keys stay as they are. *)
Lemma upserted_rows_others v rows :
  filter (fun w => fact_key w <> fact_key v) (upserted_rows v rows)
  = filter (fun w => fact_key w <> fact_key v) rows.
Proof.
  unfold upserted_rows. destruct (existsb (same_fact_key v) rows).
  - induction rows as [|w rows IH]; simpl; [reflexivity|].
    destruct (same_fact_key v w) eqn:E.
    + apply same_fact_key_iff in E.
      rewrite !filter_cons_False by (intros Hne; congruence). exact IH.
    + apply same_fact_key_false in E.
      rewrite !filter_cons_True by congruence. now rewrite IH.
  - rewrite filter_app, filter_cons_False, filter_nil, app_nil_r by congruence.
    reflexivity.
Qed.

(** With keys unique, the upserted row is the one row under its key. *)
Lemma upserted_rows_own v rows :
  NoDup (map fact_key rows) ->
  filter (fun w => fact_key w = fact_key v) (upserted_rows v rows) = [v].
Proof.
  intros Hnd. unfold upserted_rows.
  destruct (existsb (same_fact_key v) rows) eqn:E.
  - induction rows as [|w rows IH]; simpl in *; [discriminate|].
    apply NoDup_cons in Hnd as [Hw Hnd].
    destruct (same_fact_key v w) eqn:Ew.
    + apply same_fact_key_iff in Ew. rewrite filter_cons_True by reflexivity.
      f_equal. apply filter_none. intros x (y & -> & Hy)%elem_of_map Hx.
      destruct (same_fact_key v y) eqn:Ey.
      * apply same_fact_key_iff in Ey. apply Hw. rewrite <- Ew, Ey.
        apply elem_of_map. now exists y.
      * apply same_fact_key_false in Ey. congruence.
    + pose proof Ew as Ew'. apply same_fact_key_false in Ew'.
      rewrite filter_cons_False by congruence. now apply IH.
  - rewrite filter_app, filter_cons_True, filter_nil by reflexivity.
    rewrite filter_none; [reflexivity|].
    intros w Hw Ew. assert (Hex : existsb (same_fact_key v) rows = true).
    { apply existsb_same_key. rewrite <- Ew. apply elem_of_map. now exists w. }
    congruence.
Qed.

Section FactSteps.
Context `{StorageConstraints}.






(** X14. One turn of the fact loop on a row with both keys that the
    storage takes: it counts as written, the row is in the fact table
    afterwards, the rows under other keys are as they were, and with keys
    unique before it is the only row under its key, so a fact already
    stored for that date and company is overwritten, not doubled. *)
Theorem upsert_overwrites (row : df_row) (v : fact_values) (w s : Z) (c : connection) :
  current c = committed c ->
  keyed_fact row = Some v ->
  fact_rejects (current c) v = false ->
  exists c',
    upsert_fact_row row (w, s) c = (Ret (w + 1, s), c')
    /\ v ∈ fact_unicorn_snapshot (committed c')
    /\ filter (fun x => fact_key x <> fact_key v) (fact_unicorn_snapshot (committed c'))
       = filter (fun x => fact_key x <> fact_key v) (fact_unicorn_snapshot (committed c))
    /\ (NoDup (map fact_key (fact_unicorn_snapshot (committed c))) ->
        filter (fun x => fact_key x = fact_key v) (fact_unicorn_snapshot (committed c'))
        = [v]).
Proof.
  intros Hc Hk Hr. rewrite upsert_fact_row_eq, Hk. cbv zeta.
  unfold upsert_fact. cbn [current log]. rewrite Hr.
  fold (upserted_rows v (fact_unicorn_snapshot (current c))).
  eexists. split; [reflexivity|]. cbn. rewrite <- Hc.
  split; [apply upserted_rows_elem|].
  split; [apply upserted_rows_others|apply upserted_rows_own].
Qed.

End FactSteps.

(** ** The cycle: facts refer to dimension rows *)

Section CycleIntegrity.
Context `{PandasParsers} `{StorageConstraints}.








End CycleIntegrity.

(** ** The further properties on the sample batch *)

Lemma company_step_accounting_witness :
  exists df' ins upd c',
    @reconcile_companies sample_schema sample_frame fresh_connection
    = (Ret (df', ins, upd), c')
    /\ ins + upd <= 3
    /\ Z.of_nat (length (dim_company (committed c'))) = 0 + ins.
Proof.
  destruct (@company_step_accounting sample_schema sample_frame fresh_connection
              eq_refl)
    as (df' & ins & upd & c' & E & _ & _ & Hsum & Hlen & _).
  exists df', ins, upd, c'. split; [exact E|]. split; [exact Hsum|exact Hlen].
Defined.

Lemma company_keys_stable_witness :
  map key_name (dim_company (committed sample_loaded))
    `prefix_of`
  map key_name
      (dim_company
         (committed (@reconcile_companies sample_schema sample_frame
                       sample_loaded).2)).
Proof.
  apply (@company_keys_stable sample_schema sample_frame sample_loaded).
  vm_compute. reflexivity.
Defined.

Lemma company_keys_refer_witness :
  exists rd row,
    rd ∈ drop_duplicates company_name (map rec sample_frame)
    /\ company_name rd = Some "Acme"%string
    /\ row ∈ dim_company (committed sample_loaded)
    /\ company_key row = 1
    /\ company_cols row = insert_update_data rd.
Proof.
  destruct (@company_keys_refer sample_schema sample_frame fresh_connection
              eq_refl)
    as (df' & ins & upd & c' & E & _ & Hall).
  assert (Ec : c' = sample_loaded) by (unfold sample_loaded; now rewrite E).
  assert (Ed : df' = sample_keyed_frame) by (unfold sample_keyed_frame; now rewrite E).
  rewrite <- Ec.
  apply (Hall (nth 0 sample_keyed_frame void_row) 1).
  - rewrite Ed. vm_compute. left.
  - vm_compute. discriminate.
  - vm_compute. reflexivity.
Defined.


Lemma upsert_overwrites_witness :
  exists c',
    @upsert_fact_row sample_schema (nth 0 sample_keyed_frame void_row) (0, 0)
      sample_loaded
    = (Ret (1, 0), c')
    /\ length (fact_unicorn_snapshot (committed c')) = 1%nat.
Proof.
  destruct (@upsert_overwrites sample_schema (nth 0 sample_keyed_frame void_row)
              (fact_of_row 1 1 (nth 0 sample_records (rec void_row))) 0 0
              sample_loaded)
    as (c' & E & _ & _ & Hown).
  - vm_compute. reflexivity.
  - vm_compute. reflexivity.
  - vm_compute. reflexivity.
  - exists c'. split; [exact E|].
    vm_compute in E. injection E as <-. reflexivity.
Defined.

